(** * s390 arch random: the buffered TRNG/DRNG byte source

    A shallow embedding of [arch/s390/crypto/arch_random.c] and the
    properties of its buffer cache, refill worker and init call.

    The C file keeps its state in file-scope variables and talks to the rest
    of the kernel through a handful of calls (spinlock, kmalloc, delayed
    work, static key, CPACF instructions).  The embedding threads one record
    holding those variables through a small state-and-fault monad; each C
    function is a monadic definition that follows the C text line by line. *)

From Stdlib Require Import ZArith List Lia Bool Sorted.
From Stdlib.Strings Require Import Byte.
Import ListNotations.
Open Scope Z_scope.

(** ** Machine integers *)

(** [unsigned int] on s390x: 32 bits, arithmetic modulo 2^32. *)
Definition wrap_u32 (x : Z) : Z := x mod 2 ^ 32.

(** [unsigned long]: 64 bits. *)
Definition wrap_u64 (x : Z) : Z := x mod 2 ^ 64.

(** The [s64] inside an [atomic64_t]: two's complement, wrapping. *)
Definition wrap_s64 (x : Z) : Z := (x + 2 ^ 63) mod 2 ^ 64 - 2 ^ 63.

Definition u8 : Type := Byte.byte.

Definition size (m : list u8) : Z := Z.of_nat (length m).

(** ** Constants of the file *)

Definition ARCH_PRNG_SEED_SIZE : Z := 32.
Definition ARCH_RNG_BUF_SIZE : Z := 2048.
Definition ENOMEM : Z := 12.

(** ** What the file takes from the rest of the kernel

    [HZ] comes from the kernel configuration; the CPACF query and PRNO
    instructions from <asm/cpacf.h>; [kmalloc] from the allocator.  None of
    them is defined in this file, so they are the methods of an interface.
    The laws say only that each call produces as many bytes as it was asked
    for. *)

Inductive cpacf_opcode : Type := CPACF_PRNO.

Inductive cpacf_prno_func : Type :=
| CPACF_PRNO_SHA512_DRNG_GEN
| CPACF_PRNO_SHA512_DRNG_SEED
| CPACF_PRNO_TRNG.

Class Platform : Type := {
  HZ : Z;
  cpacf_query_func : cpacf_opcode -> cpacf_prno_func -> bool;
  (* [kmalloc size]: [None] is the NULL pointer, [Some m] the fresh block
     with whatever bytes it happens to hold. *)
  kmalloc : Z -> option (list u8);
  kmalloc_size : forall n m, kmalloc n = Some m -> size m = n;
  (* The hardware entropy source and one TRNG fetch of [n] bytes. *)
  trng_state : Type;
  cpacf_trng : trng_state -> Z -> list u8 * trng_state;
  cpacf_trng_size : forall t n, 0 <= n -> size (fst (cpacf_trng t n)) = n;
  (* PRNO SHA512 DRNG: seeding a work area, and generating [n] bytes from
     it (the updated work area is the second component). *)
  cpacf_prno_seed : list u8 -> list u8 -> list u8;
  cpacf_prno_gen : list u8 -> Z -> list u8 * list u8;
  cpacf_prno_gen_size :
    forall wa n, 0 <= n -> size (fst (cpacf_prno_gen wa n)) = n
}.

(** ** Memory blocks *)

(** [len] bytes of [m] starting at offset [off]; [None] when the range
    leaves the block. *)
Definition mem_read (m : list u8) (off len : Z) : option (list u8) :=
  if (0 <=? off) && (0 <=? len) && (off + len <=? size m)
  then Some (firstn (Z.to_nat len) (skipn (Z.to_nat off) m))
  else None.

(** [m] with [data] stored at offset [off]; [None] when the range leaves
    the block. *)
Definition mem_write (m : list u8) (off : Z) (data : list u8) : option (list u8) :=
  if (0 <=? off) && (off + size data <=? size m)
  then Some (firstn (Z.to_nat off) m ++ data
             ++ skipn (Z.to_nat (off + size data)) m)
  else None.

(** ** Calls that reach the rest of the kernel, in call order *)

Inductive event : Type :=
| EvSpinLock            (* arch_rng_lock taken (spin_lock or a trylock that won) *)
| EvSpinUnlock          (* arch_rng_lock released *)
| EvKmalloc (n : Z)
| EvQueueDelayedWork (delay : Z)
| EvStaticBranchEnable
| EvTrng (n : Z)
| EvPrno (f : cpacf_prno_func).

Section ArchRandom.

Context {P : Platform}.

Definition ARCH_REFILL_TICKS : Z := Z.quot HZ 2.

(** ** The file-scope state *)

Record machine : Type := mkMachine {
  s390_arch_random_available : bool;     (* static key *)
  s390_arch_random_counter : Z;          (* atomic64_t *)
  arch_rng_lock : bool;                  (* spinlock: [true] = held *)
  arch_rng_buf : option (list u8);       (* u8 *, [None] = NULL *)
  arch_rng_buf_idx : Z;                  (* unsigned int *)
  arch_rng_work : option Z;              (* delayed work: pending delay *)
  trng : trng_state;                     (* the hardware entropy source *)
  klog : list event                      (* kernel calls made so far *)
}.

(** The state the kernel image starts with: every static zero-initialised,
    the key declared FALSE, the counter ATOMIC64_INIT(0). *)
Definition boot (hw : trng_state) : machine :=
  {| s390_arch_random_available := false;
     s390_arch_random_counter := 0;
     arch_rng_lock := false;
     arch_rng_buf := None;
     arch_rng_buf_idx := 0;
     arch_rng_work := None;
     trng := hw;
     klog := [] |}.

Definition set_available (b : bool) (s : machine) : machine :=
  mkMachine b (s390_arch_random_counter s) (arch_rng_lock s) (arch_rng_buf s)
            (arch_rng_buf_idx s) (arch_rng_work s) (trng s) (klog s).
Definition set_counter (c : Z) (s : machine) : machine :=
  mkMachine (s390_arch_random_available s) c (arch_rng_lock s) (arch_rng_buf s)
            (arch_rng_buf_idx s) (arch_rng_work s) (trng s) (klog s).
Definition set_lock (b : bool) (s : machine) : machine :=
  mkMachine (s390_arch_random_available s) (s390_arch_random_counter s) b
            (arch_rng_buf s) (arch_rng_buf_idx s) (arch_rng_work s) (trng s)
            (klog s).
Definition set_buf (p : option (list u8)) (s : machine) : machine :=
  mkMachine (s390_arch_random_available s) (s390_arch_random_counter s)
            (arch_rng_lock s) p (arch_rng_buf_idx s) (arch_rng_work s) (trng s)
            (klog s).
Definition set_idx (i : Z) (s : machine) : machine :=
  mkMachine (s390_arch_random_available s) (s390_arch_random_counter s)
            (arch_rng_lock s) (arch_rng_buf s) i (arch_rng_work s) (trng s)
            (klog s).
Definition set_work (w : option Z) (s : machine) : machine :=
  mkMachine (s390_arch_random_available s) (s390_arch_random_counter s)
            (arch_rng_lock s) (arch_rng_buf s) (arch_rng_buf_idx s) w (trng s)
            (klog s).
Definition set_trng (t : trng_state) (s : machine) : machine :=
  mkMachine (s390_arch_random_available s) (s390_arch_random_counter s)
            (arch_rng_lock s) (arch_rng_buf s) (arch_rng_buf_idx s)
            (arch_rng_work s) t (klog s).
Definition log (e : event) (s : machine) : machine :=
  mkMachine (s390_arch_random_available s) (s390_arch_random_counter s)
            (arch_rng_lock s) (arch_rng_buf s) (arch_rng_buf_idx s)
            (arch_rng_work s) (trng s) (klog s ++ [e]).

(** ** The monad: state, plus the ways a kernel call can have no result *)

Inductive fault : Type :=
| BadAccess     (* a load or store outside its block, or through NULL *)
| Spinning      (* spin_lock on a lock that is held: no progress here *)
| NotPending.   (* the delayed work is not armed: nothing to run *)

Inductive result (A : Type) : Type :=
| Ok (a : A) (s : machine)
| Fault (f : fault).
Arguments Ok {A} a s.
Arguments Fault {A} f.

Definition M (A : Type) : Type := machine -> result A.

Definition ret {A} (a : A) : M A := fun s => Ok a s.
Definition bind {A B} (c : M A) (k : A -> M B) : M B :=
  fun s => match c s with
           | Ok a s' => k a s'
           | Fault f => Fault f
           end.
Definition raise {A} (f : fault) : M A := fun _ => Fault f.
Definition gets {A} (f : machine -> A) : M A := fun s => Ok (f s) s.
Definition modify (f : machine -> machine) : M unit := fun s => Ok tt (f s).

Notation "x <- c ;; k" := (bind c (fun x => k))
  (at level 61, c at next level, right associativity).
Notation "c ;; k" := (bind c (fun _ => k))
  (at level 61, right associativity).

(** ** Kernel primitives used by the file *)

(** spin_trylock: takes the lock and answers [true] when it is free,
    answers [false] at once when another context holds it. *)
Definition spin_trylock : M bool :=
  held <- gets arch_rng_lock ;;
  if held then ret false
  else modify (set_lock true) ;; modify (log EvSpinLock) ;; ret true.

(** spin_lock: returns once the lock is taken.  While another context holds
    it the caller spins; that context's critical section is itself one of the
    operations below, so the worker's critical section is entered in a state
    where the lock is free. *)
Definition spin_lock : M unit :=
  held <- gets arch_rng_lock ;;
  if held then raise Spinning
  else modify (set_lock true) ;; modify (log EvSpinLock).

Definition spin_unlock : M unit :=
  modify (set_lock false) ;; modify (log EvSpinUnlock).

(** atomic64_add(i, &s390_arch_random_counter) *)
Definition atomic64_add (i : Z) : M unit :=
  c <- gets s390_arch_random_counter ;;
  modify (set_counter (wrap_s64 (c + i))).

(** memcpy(buf, arch_rng_buf + off, n): [buf] with its first [n] bytes
    replaced.  A copy of zero bytes touches no memory. *)
Definition memcpy_from_rng_buf (buf : list u8) (off n : Z) : M (list u8) :=
  if n =? 0 then ret buf
  else
    p <- gets arch_rng_buf ;;
    match p with
    | None => raise BadAccess
    | Some m =>
        match mem_read m off n with
        | None => raise BadAccess
        | Some data =>
            match mem_write buf 0 data with
            | None => raise BadAccess
            | Some buf' => ret buf'
            end
        end
    end.

(** queue_delayed_work(system_long_wq, &arch_rng_work, delay): arms the work
    unless it is already pending.  The parameter is an [unsigned long]. *)
Definition queue_delayed_work (delay : Z) : M unit :=
  w <- gets arch_rng_work ;;
  match w with
  | Some _ => ret tt
  | None => modify (set_work (Some (wrap_u64 delay))) ;;
            modify (log (EvQueueDelayedWork (wrap_u64 delay)))
  end.

Definition static_branch_enable : M unit :=
  modify (set_available true) ;; modify (log EvStaticBranchEnable).

(** arch_rng_buf = kmalloc(n, GFP_KERNEL) *)
Definition kmalloc_arch_rng_buf (n : Z) : M (option (list u8)) :=
  modify (log (EvKmalloc n)) ;;
  modify (set_buf (kmalloc n)) ;;
  gets arch_rng_buf.

(** cpacf_trng(NULL, 0, seed, n) *)
Definition cpacf_trng_seed (n : Z) : M (list u8) :=
  t <- gets trng ;;
  modify (set_trng (snd (cpacf_trng t n))) ;;
  modify (log (EvTrng n)) ;;
  ret (fst (cpacf_trng t n)).

(** cpacf_prno(CPACF_PRNO_SHA512_DRNG_GEN, &prng_wa, arch_rng_buf, n, NULL, 0) *)
Definition cpacf_prno_gen_arch_rng_buf (prng_wa : list u8) (n : Z) : M unit :=
  p <- gets arch_rng_buf ;;
  match p with
  | None => raise BadAccess
  | Some m =>
      match mem_write m 0 (fst (cpacf_prno_gen prng_wa n)) with
      | None => raise BadAccess
      | Some m' => modify (set_buf (Some m')) ;;
                   modify (log (EvPrno CPACF_PRNO_SHA512_DRNG_GEN))
      end
  end.

(** ** The three functions of the file *)

Definition s390_arch_random_generate (buf : list u8) (nbytes : Z)
  : M (bool * list u8) :=
  (* max hunk is ARCH_RNG_BUF_SIZE *)
  if nbytes >? ARCH_RNG_BUF_SIZE then ret (false, buf)
  else
    (* lock rng buffer *)
    locked <- spin_trylock ;;
    if negb locked then ret (false, buf)
    else
      (* try to resolve the requested amount of bytes from the buffer *)
      idx <- gets arch_rng_buf_idx ;;
      modify (set_idx (wrap_u32 (idx - nbytes))) ;;
      idx <- gets arch_rng_buf_idx ;;
      if idx <? ARCH_RNG_BUF_SIZE then
        buf' <- memcpy_from_rng_buf buf idx nbytes ;;
        atomic64_add nbytes ;;
        spin_unlock ;;
        ret (true, buf')
      else
        (* not enough bytes in rng buffer, refill is done asynchronously *)
        spin_unlock ;;
        ret (false, buf).

Definition arch_rng_refill_buffer : M unit :=
  let delay := wrap_u32 ARCH_REFILL_TICKS in
  spin_lock ;;
  idx <- gets arch_rng_buf_idx ;;
  (if idx >? ARCH_RNG_BUF_SIZE then
     (* buffer is exhausted and needs refill *)
     (* fetch ARCH_PRNG_SEED_SIZE bytes of entropy *)
     seed <- cpacf_trng_seed ARCH_PRNG_SEED_SIZE ;;
     (* blow this entropy up to ARCH_RNG_BUF_SIZE with PRNG *)
     let prng_wa := repeat Byte.x00 240 in
     let prng_wa := cpacf_prno_seed prng_wa seed in
     modify (log (EvPrno CPACF_PRNO_SHA512_DRNG_SEED)) ;;
     cpacf_prno_gen_arch_rng_buf prng_wa ARCH_RNG_BUF_SIZE ;;
     modify (set_idx ARCH_RNG_BUF_SIZE)
   else ret tt) ;;
  idx <- gets arch_rng_buf_idx ;;
  let delay :=
    wrap_u32 (delay + wrap_u32 (wrap_u32 ARCH_REFILL_TICKS * idx)
                      / ARCH_RNG_BUF_SIZE) in
  spin_unlock ;;
  (* kick next check *)
  queue_delayed_work delay.

Definition s390_arch_random_init : M Z :=
  (* all the needed PRNO subfunctions available ? *)
  if cpacf_query_func CPACF_PRNO CPACF_PRNO_TRNG
     && cpacf_query_func CPACF_PRNO CPACF_PRNO_SHA512_DRNG_GEN
  then
    (* alloc arch random working buffer *)
    p <- kmalloc_arch_rng_buf ARCH_RNG_BUF_SIZE ;;
    match p with
    | None => ret (- ENOMEM)
    | Some _ =>
        (* kick worker queue job to fill the random buffer *)
        queue_delayed_work ARCH_REFILL_TICKS ;;
        (* enable arch random to the outside world *)
        static_branch_enable ;;
        ret 0
    end
  else ret 0.

(** ** Two values the worker computes, named for the statements below *)

(** The buffer contents a refill produces from the entropy source [t]. *)
Definition refilled (t : trng_state) : list u8 :=
  fst (cpacf_prno_gen
         (cpacf_prno_seed (repeat Byte.x00 240)
            (fst (cpacf_trng t ARCH_PRNG_SEED_SIZE)))
         ARCH_RNG_BUF_SIZE).

(** The delay the worker computes from the cursor [idx]. *)
Definition next_delay (idx : Z) : Z :=
  wrap_u32 (wrap_u32 ARCH_REFILL_TICKS
            + wrap_u32 (wrap_u32 ARCH_REFILL_TICKS * idx) / ARCH_RNG_BUF_SIZE).

(** ** The running system

    Callers on any CPU and the work item interleave; everything each of them
    does to the buffer and the cursor happens inside the critical section, so
    a run of the system is a sequence of whole operations.  A caller that
    arrives while another context is inside its critical section is the
    operation [GenerateBusy]. *)

Inductive op : Type :=
| Generate (buf : list u8) (nbytes : Z)
| GenerateBusy (buf : list u8) (nbytes : Z)
| Fire.

Inductive outcome : Type :=
| Generated (ok : bool) (buf : list u8)
| Fired.

(** [c] run while some other context holds arch_rng_lock. *)
Definition while_locked {A} (c : M A) : M A :=
  held <- gets arch_rng_lock ;;
  modify (set_lock true) ;;
  a <- c ;;
  modify (set_lock held) ;;
  ret a.

(** The workqueue running the delayed work once its delay has passed: the
    pending mark is cleared, then the work function is called. *)
Definition run_delayed_work : M unit :=
  w <- gets arch_rng_work ;;
  match w with
  | None => raise NotPending
  | Some _ => modify (set_work None) ;; arch_rng_refill_buffer
  end.

Definition step (o : op) : M outcome :=
  match o with
  | Generate buf nbytes =>
      r <- s390_arch_random_generate buf nbytes ;;
      ret (Generated (fst r) (snd r))
  | GenerateBusy buf nbytes =>
      r <- while_locked (s390_arch_random_generate buf nbytes) ;;
      ret (Generated (fst r) (snd r))
  | Fire => run_delayed_work ;; ret Fired
  end.

Fixpoint run (ops : list op) : M (list outcome) :=
  match ops with
  | [] => ret []
  | o :: ops' => r <- step o ;; rs <- run ops' ;; ret (r :: rs)
  end.

(** Bytes handed out by one operation, and by a run. *)
Definition bytes_served (o : op) (r : outcome) : Z :=
  match o, r with
  | Generate _ nbytes, Generated true _ => nbytes
  | GenerateBusy _ nbytes, Generated true _ => nbytes
  | _, _ => 0
  end.

Fixpoint total_served (ops : list op) (rs : list outcome) : Z :=
  match ops, rs with
  | o :: ops', r :: rs' => bytes_served o r + total_served ops' rs'
  | _, _ => 0
  end.

Definition nbytes_of (o : op) : Z :=
  match o with
  | Generate _ nbytes => nbytes
  | GenerateBusy _ nbytes => nbytes
  | Fire => 0
  end.

(** The states the system goes through once the init call has allocated
    the buffer and enabled the key. *)
Inductive reachable : machine -> Prop :=
| reach_init hw s :
    s390_arch_random_init (boot hw) = Ok 0 s ->
    s390_arch_random_available s = true ->
    reachable s
| reach_step s o r s' :
    reachable s -> step o s = Ok r s' -> reachable s'.

(** ** A sequence of callers, with the range each one was served

    After a successful call the bytes copied are
    [arch_rng_buf + arch_rng_buf_idx .. + nbytes), with the cursor as the
    call left it. *)

Record served : Type := mkServed {
  sv_ok : bool;
  sv_lo : Z;
  sv_len : Z;
  sv_out : list u8
}.

Fixpoint generate_seq (reqs : list (list u8 * Z)) : M (list served) :=
  match reqs with
  | [] => ret []
  | (buf, nbytes) :: reqs' =>
      r <- s390_arch_random_generate buf nbytes ;;
      idx <- gets arch_rng_buf_idx ;;
      rs <- generate_seq reqs' ;;
      ret (mkServed (fst r) idx nbytes (snd r) :: rs)
  end.

(** A request hands in a buffer that has room for what it asks. *)
Definition request_ok (q : list u8 * Z) : Prop :=
  0 <= snd q <= size (fst q).

Definition requested (reqs : list (list u8 * Z)) : Z :=
  fold_right (fun q acc => snd q + acc) 0 reqs.

(** The first request, if there is one, asks for at least one byte. *)
Definition first_positive (reqs : list (list u8 * Z)) : Prop :=
  match reqs with
  | [] => True
  | q :: _ => 0 < snd q
  end.

Definition in_range (a : served) (k : Z) : Prop :=
  sv_lo a <= k < sv_lo a + sv_len a.

Definition ranges_disjoint (tr : list served) : Prop :=
  forall i j a b k,
    i <> j -> nth_error tr i = Some a -> nth_error tr j = Some b ->
    ~ (in_range a k /\ in_range b k).

Definition cursor_shrinks (tr : list served) : Prop :=
  forall i a b,
    nth_error tr i = Some a -> nth_error tr (S i) = Some b ->
    sv_lo b <= sv_lo a.

End ArchRandom.

Arguments Ok {P A} a s.
Arguments Fault {P A} f.

(** ** A concrete platform to run the functions on

    Counting bytes stand in for the hardware: the TRNG hands out
    consecutive byte values, the DRNG a ramp starting at the first byte of its
    work area, kmalloc a zeroed block. *)

Definition byte_of (i : Z) : u8 :=
  match Byte.of_N (Z.to_N (i mod 256)) with
  | Some b => b
  | None => Byte.x00
  end.

Definition ramp (start n : Z) : list u8 :=
  map (fun i => byte_of (start + Z.of_nat i)) (seq 0 (Z.to_nat n)).

Definition ramp_start (wa : list u8) : Z :=
  match wa with
  | b :: _ => Z.of_N (Byte.to_N b)
  | [] => 0
  end.

Definition demo_platform (hz : Z) (has_trng has_gen mem_ok : bool) : Platform.
Proof.
  refine {| HZ := hz;
            cpacf_query_func := fun _ f =>
              match f with
              | CPACF_PRNO_TRNG => has_trng
              | CPACF_PRNO_SHA512_DRNG_GEN => has_gen
              | CPACF_PRNO_SHA512_DRNG_SEED => has_gen
              end;
            kmalloc := fun n =>
              if mem_ok && (0 <=? n)
              then Some (repeat Byte.x00 (Z.to_nat n)) else None;
            trng_state := Z;
            cpacf_trng := fun t n => (ramp t n, t + n);
            cpacf_prno_seed := fun wa seed =>
              seed ++ skipn (length seed) wa;
            cpacf_prno_gen := fun wa n => (ramp (ramp_start wa) n, wa) |}.
  - intros n m. destruct mem_ok; simpl; [| discriminate].
    destruct (0 <=? n) eqn:E; [| discriminate].
    intros H; inversion H; subst. unfold size. rewrite repeat_length.
    apply Z.leb_le in E. lia.
  - intros t n Hn. unfold size, ramp; simpl.
    rewrite length_map, length_seq. lia.
  - intros wa n Hn. unfold size, ramp; simpl.
    rewrite length_map, length_seq. lia.
Defined.

(** CONFIG_HZ=1000, both PRNO subfunctions installed, memory available. *)
Definition s390x : Platform := demo_platform 1000 true true true.

(** The same machine without the TRNG subfunction, and one whose allocator
    is out of memory. *)
Definition s390x_no_trng : Platform := demo_platform 1000 false true true.
Definition s390x_no_mem : Platform := demo_platform 1000 true true false.

Definition zeros (n : nat) : list u8 := repeat Byte.x00 n.

(** One fill consumed whole: the worker refills, a caller takes all
    ARCH_RNG_BUF_SIZE bytes, the next caller misses.  [cycles k] repeats it
    [k] times. *)
Definition refill_cycle : list op :=
  [Fire; Generate (zeros 2048) 2048; Generate (zeros 1) 1].

Definition cycles (k : N) : list op := N.iter k (app refill_cycle) [].

(** A first miss, then 2^52 - 1 whole fills, then a refill. *)
Definition long_run : list op :=
  Generate (zeros 1) 1 :: cycles (2 ^ 52 - 1) ++ [Fire].

(** The state in which [refill_cycle] starts and ends: a caller has just
    missed on an empty buffer. *)
Definition cycle_start {P : Platform} (s : machine) : Prop :=
  arch_rng_lock s = false
  /\ (exists m, arch_rng_buf s = Some m /\ size m = ARCH_RNG_BUF_SIZE)
  /\ (exists d, arch_rng_work s = Some d)
  /\ arch_rng_buf_idx s = 2 ^ 32 - 1.

Definition returned {P : Platform} {A} (r : result A) : option A :=
  match r with
  | Ok a _ => Some a
  | Fault _ => None
  end.

Definition state_after {P : Platform} (ops : list op) (s : machine) : machine :=
  match run ops s with
  | Ok _ s' => s'
  | Fault _ => s
  end.

(** [s390x] right after the init call, ... *)
Definition power_on : machine (P := s390x) := boot (P := s390x) 0.

Definition fresh : machine (P := s390x) :=
  match s390_arch_random_init power_on with
  | Ok _ s => s
  | Fault _ => power_on
  end.

(** ... after the first caller has missed and the worker has refilled, ... *)
Definition full : machine (P := s390x) :=
  state_after [Generate (zeros 1) 1; Fire] fresh.

(** ... with 5 bytes left, half drained, and drained to the last byte. *)
Definition five_left : machine (P := s390x) :=
  state_after [Generate (zeros 2043) 2043] full.
Definition half : machine (P := s390x) :=
  state_after [Generate (zeros 1024) 1024] full.
Definition drained : machine (P := s390x) :=
  state_after [Generate (zeros 2048) 2048] full.

(** ** Vocabulary for the properties of whole runs *)

(** What the init call leaves behind for the running system: the lock free,
    a buffer of ARCH_RNG_BUF_SIZE bytes, the work pending. *)
Definition armed {P : Platform} (s : machine) : Prop :=
  arch_rng_lock s = false
  /\ (exists m, arch_rng_buf s = Some m /\ size m = ARCH_RNG_BUF_SIZE)
  /\ (exists d, arch_rng_work s = Some d).

(** Once a call for at least one byte has missed, every later call of the
    sequence misses. *)
Definition sticky_miss (tr : list served) : Prop :=
  forall i j a b,
    (i < j)%nat -> nth_error tr i = Some a -> nth_error tr j = Some b ->
    sv_ok a = false -> 0 < sv_len a -> sv_ok b = false.

(** The bytes callers may request between two runs of the worker without
    the wrapped cursor coming back down to the buffer. *)
Definition FILL_BUDGET : Z := 2 ^ 32 - ARCH_RNG_BUF_SIZE - 1.

(** [within_budget b ops]: every call hands in a buffer with room for what
    it asks, and the sizes asked between two runs of the worker sum to at
    most FILL_BUDGET ([b] is what is left of it at the head of [ops]). *)
Fixpoint within_budget (b : Z) (ops : list op) : Prop :=
  match ops with
  | [] => True
  | Generate buf nbytes :: ops' =>
      0 <= nbytes <= b /\ nbytes <= size buf /\ within_budget (b - nbytes) ops'
  | GenerateBusy _ _ :: ops' => within_budget b ops'
  | Fire :: ops' => within_budget FILL_BUDGET ops'
  end.

(** The bytes a successful call received are bytes of a buffer the DRNG
    filled. *)
Definition drng_served {P : Platform} (o : op) (r : outcome) : Prop :=
  match o, r with
  | Generate _ nbytes, Generated true out =>
      nbytes = 0
      \/ exists t lo,
           0 <= lo /\ lo + nbytes <= ARCH_RNG_BUF_SIZE
           /\ firstn (Z.to_nat nbytes) out
              = firstn (Z.to_nat nbytes) (skipn (Z.to_nat lo) (refilled t))
  | _, _ => True
  end.

(** What holds between operations while callers stay within the budget,
    with [b] of it left: either the cursor is inside the buffer, and if it
    says that bytes are left the buffer holds DRNG output; or the cursor is
    wrapped, more than [b] above the buffer. *)
Definition fill_inv {P : Platform} (b : Z) (s : machine) : Prop :=
  armed s
  /\ 0 <= b
  /\ ((0 <= arch_rng_buf_idx s <= ARCH_RNG_BUF_SIZE
       /\ (0 < arch_rng_buf_idx s -> exists t, arch_rng_buf s = Some (refilled t))
       /\ b <= FILL_BUDGET)
      \/ ARCH_RNG_BUF_SIZE + b < arch_rng_buf_idx s < 2 ^ 32).

(** [misses k]: [k] callers in a row asking for a whole buffer. *)
Definition misses (k : N) : list op :=
  N.iter k (cons (Generate (zeros 2048) 2048)) [].

(** A first miss on the empty buffer, then 2^21 - 2 more without the
    worker running: the cursor has come down from 2^32 - 1 to 4095. *)
Definition starved_run : list op :=
  Generate (zeros 1) 1 :: misses (2 ^ 21 - 2).

(** One more miss, of 2047 bytes, and the cursor stands on 2048. *)
Definition landing_run : list op :=
  starved_run ++ [Generate (zeros 2047) 2047].

(** * Properties *)

(** ** Arithmetic of the machine integers *)

Lemma wrap_u32_range (x : Z) : 0 <= wrap_u32 x < 2 ^ 32.
Proof. unfold wrap_u32. apply Z.mod_pos_bound. lia. Qed.

Lemma wrap_u32_small (x : Z) : 0 <= x < 2 ^ 32 -> wrap_u32 x = x.
Proof. intros H. unfold wrap_u32. apply Z.mod_small. exact H. Qed.

Lemma wrap_u32_borrow (x : Z) : - 2 ^ 32 <= x < 0 -> wrap_u32 x = x + 2 ^ 32.
Proof.
  intros H. unfold wrap_u32.
  rewrite <- (Z.mod_small (x + 2 ^ 32) (2 ^ 32)) by lia.
  replace (x + 2 ^ 32) with (x + 1 * 2 ^ 32) by lia.
  now rewrite Z.mod_add by lia.
Qed.

Lemma wrap_u64_small (x : Z) : 0 <= x < 2 ^ 64 -> wrap_u64 x = x.
Proof. intros H. unfold wrap_u64. apply Z.mod_small. exact H. Qed.

Lemma wrap_s64_small (x : Z) : - 2 ^ 63 <= x < 2 ^ 63 -> wrap_s64 x = x.
Proof. intros H. unfold wrap_s64. rewrite Z.mod_small; lia. Qed.

Lemma wrap_s64_range (x : Z) : - 2 ^ 63 <= wrap_s64 x < 2 ^ 63.
Proof.
  unfold wrap_s64.
  pose proof (Z.mod_pos_bound (x + 2 ^ 63) (2 ^ 64)). lia.
Qed.

Lemma wrap_s64_add_l (x y : Z) : wrap_s64 (wrap_s64 x + y) = wrap_s64 (x + y).
Proof.
  unfold wrap_s64. f_equal.
  replace ((x + 2 ^ 63) mod 2 ^ 64 - 2 ^ 63 + y + 2 ^ 63)
    with ((x + 2 ^ 63) mod 2 ^ 64 + y) by lia.
  rewrite Zplus_mod_idemp_l. f_equal. lia.
Qed.

(** ** Memory blocks *)

Lemma size_nonneg (m : list u8) : 0 <= size m.
Proof. unfold size. lia. Qed.

Lemma size_app (a b : list u8) : size (a ++ b) = size a + size b.
Proof. unfold size. rewrite length_app. lia. Qed.

Lemma mem_read_in_bounds (m : list u8) (off len : Z) :
  0 <= off -> 0 <= len -> off + len <= size m ->
  mem_read m off len
  = Some (firstn (Z.to_nat len) (skipn (Z.to_nat off) m)).
Proof.
  intros Ho Hl Hb. unfold mem_read.
  destruct (0 <=? off) eqn:E1; [| apply Z.leb_gt in E1; lia].
  destruct (0 <=? len) eqn:E2; [| apply Z.leb_gt in E2; lia].
  destruct (off + len <=? size m) eqn:E3; [| apply Z.leb_gt in E3; lia].
  reflexivity.
Qed.

Lemma mem_read_size (m : list u8) (off len : Z) (data : list u8) :
  mem_read m off len = Some data -> size data = len.
Proof.
  unfold mem_read.
  destruct (0 <=? off) eqn:E1; [| discriminate].
  destruct (0 <=? len) eqn:E2; [| discriminate].
  destruct (off + len <=? size m) eqn:E3; [| discriminate].
  simpl. intros H. inversion H; subst. clear H.
  apply Z.leb_le in E1, E2, E3. unfold size in *.
  rewrite length_firstn, length_skipn. lia.
Qed.

Lemma mem_write_front (buf data : list u8) :
  size data <= size buf ->
  mem_write buf 0 data = Some (data ++ skipn (Z.to_nat (size data)) buf).
Proof.
  intros H. unfold mem_write. simpl.
  destruct (size data <=? size buf) eqn:E; [| apply Z.leb_gt in E; lia].
  reflexivity.
Qed.

Lemma mem_write_whole (m data : list u8) :
  size data = size m -> mem_write m 0 data = Some data.
Proof.
  intros H. rewrite mem_write_front by lia.
  rewrite skipn_all2, app_nil_r; [reflexivity |].
  unfold size in *. lia.
Qed.

Lemma last_app_cons {A} (l l' : list A) (x d : A) :
  last (l ++ x :: l') d = last (x :: l') d.
Proof.
  induction l as [| y l IH]; [reflexivity |].
  simpl app. rewrite <- IH. simpl. destruct (l ++ x :: l') eqn:E; [| reflexivity].
  destruct l; discriminate.
Qed.

Lemma sorted_nth_error {A} (R : A -> A -> Prop) (l : list A) :
  StronglySorted R l ->
  forall i j a b,
    (i < j)%nat -> nth_error l i = Some a -> nth_error l j = Some b -> R a b.
Proof.
  induction 1 as [| x l _ IH Hx]; intros i j a b Hij Ha Hb.
  - destruct i; discriminate.
  - destruct j as [| j]; [lia |]. simpl in Hb. destruct i as [| i].
    + simpl in Ha. inversion Ha; subst.
      apply nth_error_In in Hb. rewrite Forall_forall in Hx. auto.
    + simpl in Ha. apply (IH i j); auto. lia.
Qed.

Section Properties.

Context {P : Platform}.

Ltac munfold :=
  unfold s390_arch_random_generate, arch_rng_refill_buffer,
    s390_arch_random_init, run_delayed_work, while_locked,
    spin_trylock, spin_lock, spin_unlock, atomic64_add,
    memcpy_from_rng_buf, queue_delayed_work, static_branch_enable,
    kmalloc_arch_rng_buf, cpacf_trng_seed, cpacf_prno_gen_arch_rng_buf,
    bind, ret, gets, modify, raise.

(** ** s390_arch_random_generate, one call *)

(** A caller that finds the lock held leaves at once. *)
Lemma generate_contended (buf : list u8) (nbytes : Z) (s : machine) :
  arch_rng_lock s = true ->
  s390_arch_random_generate buf nbytes s = Ok (false, buf) s.
Proof.
  intros H. unfold s390_arch_random_generate.
  destruct (nbytes >? ARCH_RNG_BUF_SIZE); [reflexivity |].
  munfold. rewrite H. reflexivity.
Qed.

(** With the lock free and the size accepted, the call is decided by the
    decremented cursor alone. *)
Lemma generate_miss (buf : list u8) (nbytes : Z) (s : machine) :
  arch_rng_lock s = false ->
  nbytes <= ARCH_RNG_BUF_SIZE ->
  ARCH_RNG_BUF_SIZE <= wrap_u32 (arch_rng_buf_idx s - nbytes) ->
  s390_arch_random_generate buf nbytes s
  = Ok (false, buf)
       (log EvSpinUnlock
          (set_lock false
             (set_idx (wrap_u32 (arch_rng_buf_idx s - nbytes))
                (log EvSpinLock (set_lock true s))))).
Proof.
  intros Hl Hn Hi. unfold s390_arch_random_generate.
  destruct (nbytes >? ARCH_RNG_BUF_SIZE) eqn:E.
  { rewrite Z.gtb_ltb in E. apply Z.ltb_lt in E. lia. }
  munfold. rewrite Hl. simpl.
  destruct (wrap_u32 (arch_rng_buf_idx s - nbytes) <? ARCH_RNG_BUF_SIZE) eqn:E2.
  { apply Z.ltb_lt in E2. lia. }
  reflexivity.
Qed.

Lemma generate_hit (buf : list u8) (nbytes : Z) (s : machine) (m : list u8) :
  arch_rng_lock s = false ->
  arch_rng_buf s = Some m ->
  0 <= nbytes <= ARCH_RNG_BUF_SIZE ->
  nbytes <= size buf ->
  wrap_u32 (arch_rng_buf_idx s - nbytes) < ARCH_RNG_BUF_SIZE ->
  wrap_u32 (arch_rng_buf_idx s - nbytes) + nbytes <= size m ->
  s390_arch_random_generate buf nbytes s
  = Ok (true,
        firstn (Z.to_nat nbytes)
          (skipn (Z.to_nat (wrap_u32 (arch_rng_buf_idx s - nbytes))) m)
        ++ skipn (Z.to_nat nbytes) buf)
       (log EvSpinUnlock
          (set_lock false
             (set_counter (wrap_s64 (s390_arch_random_counter s + nbytes))
                (set_idx (wrap_u32 (arch_rng_buf_idx s - nbytes))
                   (log EvSpinLock (set_lock true s)))))).
Proof.
  intros Hl Hb Hn Hbuf Hi Hm. unfold s390_arch_random_generate.
  destruct (nbytes >? ARCH_RNG_BUF_SIZE) eqn:E.
  { rewrite Z.gtb_ltb in E. apply Z.ltb_lt in E. lia. }
  munfold. rewrite Hl. simpl.
  destruct (wrap_u32 (arch_rng_buf_idx s - nbytes) <? ARCH_RNG_BUF_SIZE) eqn:E2.
  2:{ apply Z.ltb_ge in E2. lia. }
  destruct (nbytes =? 0) eqn:E3.
  - apply Z.eqb_eq in E3. subst nbytes. simpl. reflexivity.
  - apply Z.eqb_neq in E3. simpl. rewrite Hb.
    pose proof (wrap_u32_range (arch_rng_buf_idx s - nbytes)) as Hr.
    rewrite mem_read_in_bounds by lia.
    set (data := firstn _ _).
    assert (Hd : size data = nbytes).
    { apply (mem_read_size m (wrap_u32 (arch_rng_buf_idx s - nbytes)) nbytes).
      apply mem_read_in_bounds; lia. }
    rewrite mem_write_front by lia.
    rewrite Hd. reflexivity.
Qed.

(** ** arch_rng_refill_buffer, one call *)

Lemma refill_spec (s : machine) :
  arch_rng_lock s = false ->
  (ARCH_RNG_BUF_SIZE < arch_rng_buf_idx s ->
   exists m, arch_rng_buf s = Some m /\ size m = ARCH_RNG_BUF_SIZE) ->
  exists s',
    arch_rng_refill_buffer s = Ok tt s'
    /\ arch_rng_buf_idx s'
       = (if arch_rng_buf_idx s >? ARCH_RNG_BUF_SIZE
          then ARCH_RNG_BUF_SIZE else arch_rng_buf_idx s)
    /\ arch_rng_buf s'
       = (if arch_rng_buf_idx s >? ARCH_RNG_BUF_SIZE
          then Some (refilled (trng s)) else arch_rng_buf s)
    /\ trng s'
       = (if arch_rng_buf_idx s >? ARCH_RNG_BUF_SIZE
          then snd (cpacf_trng (trng s) ARCH_PRNG_SEED_SIZE) else trng s)
    /\ s390_arch_random_counter s' = s390_arch_random_counter s
    /\ s390_arch_random_available s' = s390_arch_random_available s
    /\ arch_rng_lock s' = false
    /\ arch_rng_work s'
       = match arch_rng_work s with
         | Some d => Some d
         | None => Some (wrap_u64 (next_delay (arch_rng_buf_idx s')))
         end
    /\ klog s'
       = klog s ++ [EvSpinLock]
         ++ (if arch_rng_buf_idx s >? ARCH_RNG_BUF_SIZE
             then [EvTrng ARCH_PRNG_SEED_SIZE;
                   EvPrno CPACF_PRNO_SHA512_DRNG_SEED;
                   EvPrno CPACF_PRNO_SHA512_DRNG_GEN]
             else [])
         ++ [EvSpinUnlock]
         ++ match arch_rng_work s with
            | Some _ => []
            | None => [EvQueueDelayedWork
                         (wrap_u64 (next_delay (arch_rng_buf_idx s')))]
            end.
Proof.
  intros Hl Hb. unfold arch_rng_refill_buffer.
  munfold. rewrite Hl. simpl.
  destruct (arch_rng_buf_idx s >? ARCH_RNG_BUF_SIZE) eqn:E.
  - rewrite Z.gtb_ltb in E. apply Z.ltb_lt in E.
    destruct (Hb E) as (m & Hm & Hsz). simpl. rewrite Hm.
    rewrite mem_write_whole.
    2:{ rewrite Hsz. apply cpacf_prno_gen_size. unfold ARCH_RNG_BUF_SIZE. lia. }
    simpl. unfold next_delay.
    destruct (arch_rng_work s) eqn:W; simpl;
      (eexists; split; [reflexivity |]); simpl;
      rewrite <- ?app_assoc; simpl; repeat split; try reflexivity; auto.
  - simpl. unfold next_delay.
    destruct (arch_rng_work s) eqn:W; simpl;
      (eexists; split; [reflexivity |]); simpl;
      rewrite <- ?app_assoc; simpl; repeat split; try reflexivity; auto.
Qed.

(** Every way a call can come back. *)
Lemma generate_cases (buf : list u8) (nbytes : Z) (s : machine)
      (r : bool * list u8) (s' : machine) :
  s390_arch_random_generate buf nbytes s = Ok r s' ->
  (r = (false, buf) /\ s' = s)
  \/ (arch_rng_lock s = false /\ nbytes <= ARCH_RNG_BUF_SIZE
      /\ r = (false, buf)
      /\ ARCH_RNG_BUF_SIZE <= wrap_u32 (arch_rng_buf_idx s - nbytes)
      /\ s' = log EvSpinUnlock
                (set_lock false
                   (set_idx (wrap_u32 (arch_rng_buf_idx s - nbytes))
                      (log EvSpinLock (set_lock true s)))))
  \/ (arch_rng_lock s = false /\ nbytes <= ARCH_RNG_BUF_SIZE
      /\ fst r = true
      /\ wrap_u32 (arch_rng_buf_idx s - nbytes) < ARCH_RNG_BUF_SIZE
      /\ s' = log EvSpinUnlock
                (set_lock false
                   (set_counter (wrap_s64 (s390_arch_random_counter s + nbytes))
                      (set_idx (wrap_u32 (arch_rng_buf_idx s - nbytes))
                         (log EvSpinLock (set_lock true s)))))).
Proof.
  unfold s390_arch_random_generate.
  destruct (nbytes >? ARCH_RNG_BUF_SIZE) eqn:E.
  { unfold ret. intros H. inversion H. auto. }
  rewrite Z.gtb_ltb in E. apply Z.ltb_ge in E.
  munfold. destruct (arch_rng_lock s) eqn:Hl; simpl.
  { intros H. inversion H. auto. }
  destruct (wrap_u32 (arch_rng_buf_idx s - nbytes) <? ARCH_RNG_BUF_SIZE) eqn:E2.
  - apply Z.ltb_lt in E2. intros H. right. right.
    destruct (nbytes =? 0); simpl in H.
    + inversion H; subst. simpl. auto.
    + destruct (arch_rng_buf s); [| discriminate].
      destruct (mem_read _ _ _); [| discriminate].
      destruct (mem_write _ _ _); [| discriminate].
      simpl in H. inversion H; subst. simpl. auto.
  - apply Z.ltb_ge in E2. intros H. inversion H; subst. right. left. auto.
Qed.

(** Every way the worker can come back. *)
Lemma refill_cases (s s' : machine) (u : unit) :
  arch_rng_refill_buffer s = Ok u s' ->
  arch_rng_lock s = false
  /\ arch_rng_buf_idx s'
     = (if arch_rng_buf_idx s >? ARCH_RNG_BUF_SIZE
        then ARCH_RNG_BUF_SIZE else arch_rng_buf_idx s)
  /\ s390_arch_random_counter s' = s390_arch_random_counter s
  /\ s390_arch_random_available s' = s390_arch_random_available s
  /\ arch_rng_lock s' = false.
Proof.
  unfold arch_rng_refill_buffer. munfold.
  destruct (arch_rng_lock s) eqn:Hl; simpl; [discriminate |].
  destruct (arch_rng_buf_idx s >? ARCH_RNG_BUF_SIZE) eqn:E; simpl.
  - destruct (arch_rng_buf s); [| discriminate].
    destruct (mem_write _ _ _); [| discriminate]. simpl.
    destruct (arch_rng_work s); intros H; inversion H; subst; simpl; auto.
  - destruct (arch_rng_work s); intros H; inversion H; subst; simpl; auto.
Qed.

(** ** One operation of the running system *)

Lemma set_lock_same (s : machine) : set_lock (arch_rng_lock s) (set_lock true s) = s.
Proof. destruct s. reflexivity. Qed.

Lemma step_generate_inv (buf : list u8) (nbytes : Z) (s : machine)
      (r : outcome) (s' : machine) :
  step (Generate buf nbytes) s = Ok r s' ->
  exists r0, s390_arch_random_generate buf nbytes s = Ok r0 s'
             /\ r = Generated (fst r0) (snd r0).
Proof.
  unfold step, bind, ret.
  destruct (s390_arch_random_generate buf nbytes s) as [r0 s0 |]; [| discriminate].
  intros H. inversion H; subst. exists r0. auto.
Qed.

Lemma step_busy_inv (buf : list u8) (nbytes : Z) (s : machine)
      (r : outcome) (s' : machine) :
  step (GenerateBusy buf nbytes) s = Ok r s' ->
  r = Generated false buf /\ s' = s.
Proof.
  unfold step, while_locked, bind, ret, gets, modify.
  rewrite generate_contended by reflexivity.
  intros H. inversion H; subst. simpl. split; [reflexivity |].
  apply set_lock_same.
Qed.

Lemma step_fire_inv (s : machine) (r : outcome) (s' : machine) :
  step Fire s = Ok r s' ->
  r = Fired
  /\ exists d, arch_rng_work s = Some d
               /\ arch_rng_refill_buffer (set_work None s) = Ok tt s'.
Proof.
  unfold step, run_delayed_work, bind, ret, gets, modify, raise.
  destruct (arch_rng_work s) as [d |] eqn:W; [| discriminate].
  destruct (arch_rng_refill_buffer (set_work None s)) as [[] s0 |] eqn:R;
    [| discriminate].
  intros H. inversion H; subst. split; [reflexivity |]. exists d. auto.
Qed.

(** No operation touches the static key. *)
Lemma step_available (o : op) (s : machine) (r : outcome) (s' : machine) :
  step o s = Ok r s' ->
  s390_arch_random_available s' = s390_arch_random_available s.
Proof.
  intros H. destruct o as [buf n | buf n |].
  - apply step_generate_inv in H. destruct H as (r0 & H & _).
    apply generate_cases in H.
    destruct H as [[_ ->] | [(_ & _ & _ & _ & ->) | (_ & _ & _ & _ & ->)]];
      reflexivity.
  - apply step_busy_inv in H. destruct H as [_ ->]. reflexivity.
  - apply step_fire_inv in H. destruct H as (_ & d & _ & H).
    apply refill_cases in H. destruct H as (_ & _ & _ & H & _). exact H.
Qed.

(** The counter moves by what the operation served, and only then. *)
Lemma step_counter (o : op) (s : machine) (r : outcome) (s' : machine) :
  step o s = Ok r s' ->
  (bytes_served o r = 0
   /\ s390_arch_random_counter s' = s390_arch_random_counter s)
  \/ s390_arch_random_counter s'
     = wrap_s64 (s390_arch_random_counter s + bytes_served o r).
Proof.
  intros H. destruct o as [buf n | buf n |].
  - apply step_generate_inv in H. destruct H as (r0 & H & ->).
    apply generate_cases in H.
    destruct H as [[-> ->] | [(_ & _ & -> & _ & ->) | (_ & _ & Hr & _ & ->)]];
      simpl; auto.
    rewrite Hr. simpl. auto.
  - apply step_busy_inv in H. destruct H as [-> ->]. simpl. auto.
  - apply step_fire_inv in H. destruct H as (-> & d & _ & H).
    apply refill_cases in H. destruct H as (_ & _ & H & _). simpl. auto.
Qed.

(** The cursor after one operation. *)
Lemma step_cursor (o : op) (s : machine) (r : outcome) (s' : machine) :
  step o s = Ok r s' ->
  0 <= arch_rng_buf_idx s < 2 ^ 32 ->
  0 <= arch_rng_buf_idx s' < 2 ^ 32
  /\ (o = Fire -> arch_rng_buf_idx s' <= ARCH_RNG_BUF_SIZE)
  /\ (forall b, r = Generated true b ->
                 arch_rng_buf_idx s' < ARCH_RNG_BUF_SIZE).
Proof.
  intros H Hi. destruct o as [buf n | buf n |].
  - apply step_generate_inv in H. destruct H as (r0 & H & ->).
    pose proof (wrap_u32_range (arch_rng_buf_idx s - n)) as Hw.
    apply generate_cases in H.
    destruct H as [[-> ->] | [(_ & _ & -> & _ & ->) | (_ & _ & Hr & Hlt & ->)]];
      simpl; repeat split; try lia; try discriminate; auto.
  - apply step_busy_inv in H. destruct H as [-> ->].
    repeat split; try lia; discriminate.
  - apply step_fire_inv in H. destruct H as (-> & d & _ & H).
    apply refill_cases in H. destruct H as (_ & H & _). simpl in H.
    destruct (arch_rng_buf_idx s >? ARCH_RNG_BUF_SIZE) eqn:E.
    + rewrite H. unfold ARCH_RNG_BUF_SIZE. repeat split; try lia; discriminate.
    + rewrite Z.gtb_ltb in E. apply Z.ltb_ge in E. rewrite H.
      repeat split; try lia; discriminate.
Qed.

(** ** Claims about one call of s390_arch_random_generate *)

(** C9.  A request for more than ARCH_RNG_BUF_SIZE bytes is answered [false]
    by the size check, before the lock is looked at: whether the lock is held
    or free, the whole state (buffer, cursor, counter, lock, the log of lock
    operations) and the caller's buffer are what they were. *)
Theorem generate_rejects_oversized (buf : list u8) (nbytes : Z) (s : machine) :
  ARCH_RNG_BUF_SIZE < nbytes ->
  s390_arch_random_generate buf nbytes s = Ok (false, buf) s.
Proof.
  intros H. unfold s390_arch_random_generate.
  destruct (nbytes >? ARCH_RNG_BUF_SIZE) eqn:E; [reflexivity |].
  rewrite Z.gtb_ltb in E. apply Z.ltb_ge in E. lia.
Qed.

(** C5, as amended.  With the lock free, the buffer allocated, and
    [nbytes <= R <= ARCH_RNG_BUF_SIZE] where the decremented cursor
    [R - nbytes] is below ARCH_RNG_BUF_SIZE (every case but [nbytes = 0] on a
    full buffer), the call returns [true], the caller's first [nbytes] bytes
    are the buffer's bytes at [R - nbytes, R), the cursor becomes
    [R - nbytes], and the counter advances by [nbytes] as a 64-bit value. *)
Theorem generate_serves_tail
  (buf : list u8) (nbytes : Z) (s : machine) (m : list u8) :
  arch_rng_lock s = false ->
  arch_rng_buf s = Some m ->
  size m = ARCH_RNG_BUF_SIZE ->
  0 <= nbytes ->
  nbytes <= arch_rng_buf_idx s <= ARCH_RNG_BUF_SIZE ->
  arch_rng_buf_idx s - nbytes < ARCH_RNG_BUF_SIZE ->
  nbytes <= size buf ->
  exists s',
    s390_arch_random_generate buf nbytes s
    = Ok (true,
          firstn (Z.to_nat nbytes)
            (skipn (Z.to_nat (arch_rng_buf_idx s - nbytes)) m)
          ++ skipn (Z.to_nat nbytes) buf) s'
    /\ arch_rng_buf_idx s' = arch_rng_buf_idx s - nbytes
    /\ s390_arch_random_counter s'
       = wrap_s64 (s390_arch_random_counter s + nbytes)
    /\ arch_rng_buf s' = Some m
    /\ arch_rng_lock s' = false.
Proof.
  intros Hl Hb Hsz Hn Hi Hlt Hbuf.
  assert (Hw : wrap_u32 (arch_rng_buf_idx s - nbytes)
               = arch_rng_buf_idx s - nbytes).
  { apply wrap_u32_small. unfold ARCH_RNG_BUF_SIZE in *. lia. }
  rewrite (generate_hit buf nbytes s m); rewrite ?Hw; try lia; auto.
  eexists; split; [reflexivity |]. simpl. auto.
Qed.

(** C1, as amended.  With the lock free, [nbytes <= ARCH_RNG_BUF_SIZE] and
    [R < nbytes], the call returns [false] and leaves the buffer, the
    counter and the caller's bytes as they were, but the cursor is left at
    [R - nbytes + 2^32]; a following call of any size up to
    ARCH_RNG_BUF_SIZE (the [extract(5)] after the failed [extract(6)] at
    [R = 5]) returns [false] as well. *)
Theorem generate_miss_wraps_cursor
  (buf buf2 : list u8) (nbytes nbytes2 : Z) (s : machine) :
  arch_rng_lock s = false ->
  nbytes <= ARCH_RNG_BUF_SIZE ->
  0 <= arch_rng_buf_idx s < nbytes ->
  0 <= nbytes2 <= ARCH_RNG_BUF_SIZE ->
  exists s' s'',
    s390_arch_random_generate buf nbytes s = Ok (false, buf) s'
    /\ arch_rng_buf s' = arch_rng_buf s
    /\ s390_arch_random_counter s' = s390_arch_random_counter s
    /\ arch_rng_buf_idx s' = arch_rng_buf_idx s - nbytes + 2 ^ 32
    /\ s390_arch_random_generate buf2 nbytes2 s' = Ok (false, buf2) s''
    /\ arch_rng_buf s'' = arch_rng_buf s
    /\ s390_arch_random_counter s'' = s390_arch_random_counter s.
Proof.
  intros Hl Hn Hi Hn2.
  assert (Hw : wrap_u32 (arch_rng_buf_idx s - nbytes)
               = arch_rng_buf_idx s - nbytes + 2 ^ 32).
  { apply wrap_u32_borrow. unfold ARCH_RNG_BUF_SIZE in *. lia. }
  rewrite (generate_miss buf nbytes s) by
    (rewrite ?Hw; unfold ARCH_RNG_BUF_SIZE in *; lia || auto).
  set (s1 := log EvSpinUnlock _).
  assert (H1 : arch_rng_buf_idx s1 = arch_rng_buf_idx s - nbytes + 2 ^ 32)
    by (subst s1; simpl; exact Hw).
  assert (Hw2 : wrap_u32 (arch_rng_buf_idx s1 - nbytes2)
                = arch_rng_buf_idx s1 - nbytes2).
  { apply wrap_u32_small. unfold ARCH_RNG_BUF_SIZE in *. lia. }
  exists s1.
  rewrite (generate_miss buf2 nbytes2 s1) by
    (rewrite ?Hw2; unfold ARCH_RNG_BUF_SIZE in *; lia || reflexivity).
  eexists. repeat split; try reflexivity. exact H1.
Qed.

(** C10.  With the lock free, [0 < nbytes <= ARCH_RNG_BUF_SIZE] and
    [R < nbytes], the failed call leaves the cursor at [R - nbytes + 2^32],
    which is above ARCH_RNG_BUF_SIZE; the worker's next run takes exactly
    that for exhaustion: it refills the whole buffer from a fresh seed and
    sets the cursor to ARCH_RNG_BUF_SIZE. *)
Theorem wrapped_cursor_triggers_refill
  (buf : list u8) (nbytes : Z) (s : machine) (m : list u8) :
  arch_rng_lock s = false ->
  arch_rng_buf s = Some m ->
  size m = ARCH_RNG_BUF_SIZE ->
  0 < nbytes <= ARCH_RNG_BUF_SIZE ->
  0 <= arch_rng_buf_idx s < nbytes ->
  exists s1 s2,
    s390_arch_random_generate buf nbytes s = Ok (false, buf) s1
    /\ arch_rng_buf_idx s1 = arch_rng_buf_idx s - nbytes + 2 ^ 32
    /\ ARCH_RNG_BUF_SIZE < arch_rng_buf_idx s1
    /\ arch_rng_refill_buffer s1 = Ok tt s2
    /\ arch_rng_buf s2 = Some (refilled (trng s))
    /\ size (refilled (trng s)) = ARCH_RNG_BUF_SIZE
    /\ arch_rng_buf_idx s2 = ARCH_RNG_BUF_SIZE.
Proof.
  intros Hl Hb Hsz Hn Hi.
  assert (Hw : wrap_u32 (arch_rng_buf_idx s - nbytes)
               = arch_rng_buf_idx s - nbytes + 2 ^ 32).
  { apply wrap_u32_borrow. unfold ARCH_RNG_BUF_SIZE in *. lia. }
  rewrite (generate_miss buf nbytes s) by
    (rewrite ?Hw; unfold ARCH_RNG_BUF_SIZE in *; lia || auto).
  set (s1 := log EvSpinUnlock _).
  assert (H1 : arch_rng_buf_idx s1 = arch_rng_buf_idx s - nbytes + 2 ^ 32)
    by (subst s1; simpl; exact Hw).
  assert (Hgt : ARCH_RNG_BUF_SIZE < arch_rng_buf_idx s1)
    by (rewrite H1; unfold ARCH_RNG_BUF_SIZE in *; lia).
  destruct (refill_spec s1) as (s2 & Hr & Hidx & Hbuf & _).
  { reflexivity. }
  { intros _. exists m. split; [subst s1; simpl; exact Hb | exact Hsz]. }
  apply Z.ltb_lt in Hgt. rewrite <- Z.gtb_ltb in Hgt.
  rewrite Hgt in Hidx, Hbuf.
  exists s1, s2. repeat split; auto.
  - apply Z.ltb_lt. rewrite <- Z.gtb_ltb. exact Hgt.
  - unfold refilled. apply cpacf_prno_gen_size. unfold ARCH_RNG_BUF_SIZE. lia.
Qed.

(** ** Claims about one run of the worker *)

(** C2, as amended.  The worker refills exactly when it finds the cursor
    above ARCH_RNG_BUF_SIZE (the value a failed call leaves behind): it
    fetches ARCH_PRNG_SEED_SIZE = 32 bytes from the TRNG, seeds the DRNG
    with them, generates ARCH_RNG_BUF_SIZE bytes into the buffer and sets the
    cursor to ARCH_RNG_BUF_SIZE.  When the cursor is at most
    ARCH_RNG_BUF_SIZE, zero included, nothing is fetched and the buffer and
    the cursor stay as they are. *)
Theorem refill_iff_cursor_above_size (s : machine) :
  arch_rng_lock s = false ->
  (exists m, arch_rng_buf s = Some m /\ size m = ARCH_RNG_BUF_SIZE) ->
  exists s',
    arch_rng_refill_buffer s = Ok tt s'
    /\ (ARCH_RNG_BUF_SIZE < arch_rng_buf_idx s ->
        size (fst (cpacf_trng (trng s) ARCH_PRNG_SEED_SIZE)) = 32
        /\ trng s' = snd (cpacf_trng (trng s) ARCH_PRNG_SEED_SIZE)
        /\ arch_rng_buf s'
           = Some (fst (cpacf_prno_gen
                          (cpacf_prno_seed (repeat Byte.x00 240)
                             (fst (cpacf_trng (trng s) ARCH_PRNG_SEED_SIZE)))
                          ARCH_RNG_BUF_SIZE))
        /\ size (refilled (trng s)) = ARCH_RNG_BUF_SIZE
        /\ arch_rng_buf_idx s' = ARCH_RNG_BUF_SIZE
        /\ klog s'
           = klog s ++ [EvSpinLock; EvTrng 32;
                        EvPrno CPACF_PRNO_SHA512_DRNG_SEED;
                        EvPrno CPACF_PRNO_SHA512_DRNG_GEN; EvSpinUnlock]
             ++ match arch_rng_work s with
                | Some _ => []
                | None => [EvQueueDelayedWork
                             (wrap_u64 (next_delay ARCH_RNG_BUF_SIZE))]
                end)
    /\ (arch_rng_buf_idx s <= ARCH_RNG_BUF_SIZE ->
        trng s' = trng s
        /\ arch_rng_buf s' = arch_rng_buf s
        /\ arch_rng_buf_idx s' = arch_rng_buf_idx s
        /\ klog s'
           = klog s ++ [EvSpinLock; EvSpinUnlock]
             ++ match arch_rng_work s with
                | Some _ => []
                | None => [EvQueueDelayedWork
                             (wrap_u64 (next_delay (arch_rng_buf_idx s)))]
                end).
Proof.
  intros Hl Hb.
  destruct (refill_spec s Hl (fun _ => Hb))
    as (s' & Hr & Hi & Hbuf & Ht & _ & _ & _ & _ & Hlog).
  exists s'. split; [exact Hr |]. split.
  - intros Hgt. apply Z.ltb_lt in Hgt. rewrite <- Z.gtb_ltb in Hgt.
    rewrite Hgt in Hi, Hbuf, Ht, Hlog. rewrite Hi in Hlog.
    repeat split; auto.
    + apply cpacf_trng_size. unfold ARCH_PRNG_SEED_SIZE. lia.
    + unfold refilled. apply cpacf_prno_gen_size. unfold ARCH_RNG_BUF_SIZE. lia.
  - intros Hle.
    assert (E : (arch_rng_buf_idx s >? ARCH_RNG_BUF_SIZE) = false).
    { rewrite Z.gtb_ltb. apply Z.ltb_ge. exact Hle. }
    rewrite E in Hi, Hbuf, Ht, Hlog. rewrite Hi in Hlog.
    repeat split; auto.
Qed.

(** C6.  The worker re-arms itself with
    [ARCH_REFILL_TICKS + (ARCH_REFILL_TICKS * R) / ARCH_RNG_BUF_SIZE] in exact
    integer arithmetic, where [R] is the cursor after the refill of that run
    if there was one; the tick rate only has to be such that
    [ARCH_REFILL_TICKS * ARCH_RNG_BUF_SIZE] fits an [unsigned int].  With
    [HZ = 1000], so that ARCH_REFILL_TICKS is 500: [R = 2048] gives 1000 and
    [R = 1024] gives 750. *)
Theorem worker_rearms_with_scaled_delay (s : machine) (d : Z) :
  arch_rng_lock s = false ->
  arch_rng_work s = Some d ->
  (exists m, arch_rng_buf s = Some m /\ size m = ARCH_RNG_BUF_SIZE) ->
  0 <= arch_rng_buf_idx s ->
  0 <= ARCH_REFILL_TICKS ->
  ARCH_REFILL_TICKS * ARCH_RNG_BUF_SIZE < 2 ^ 32 ->
  exists s',
    run_delayed_work s = Ok tt s'
    /\ arch_rng_buf_idx s'
       = (if arch_rng_buf_idx s >? ARCH_RNG_BUF_SIZE
          then ARCH_RNG_BUF_SIZE else arch_rng_buf_idx s)
    /\ arch_rng_work s'
       = Some (ARCH_REFILL_TICKS
               + (ARCH_REFILL_TICKS * arch_rng_buf_idx s') / ARCH_RNG_BUF_SIZE)
    /\ last (klog s') EvSpinLock
       = EvQueueDelayedWork
           (ARCH_REFILL_TICKS
            + (ARCH_REFILL_TICKS * arch_rng_buf_idx s') / ARCH_RNG_BUF_SIZE)
    /\ (HZ = 1000 -> arch_rng_buf_idx s' = 2048 -> arch_rng_work s' = Some 1000)
    /\ (HZ = 1000 -> arch_rng_buf_idx s' = 1024 -> arch_rng_work s' = Some 750).
Proof.
  intros Hl Hw Hb Hi Ht Hfit.
  unfold run_delayed_work, bind, gets, modify. rewrite Hw.
  destruct (refill_spec (set_work None s)) as
    (s' & Hr & Hidx & _ & _ & _ & _ & _ & Hwork & Hlog).
  { exact Hl. }
  { intros _. exact Hb. }
  simpl in Hidx, Hwork, Hlog.
  assert (Hle : 0 <= arch_rng_buf_idx s' <= ARCH_RNG_BUF_SIZE).
  { rewrite Hidx. destruct (arch_rng_buf_idx s >? ARCH_RNG_BUF_SIZE) eqn:E.
    - unfold ARCH_RNG_BUF_SIZE. lia.
    - rewrite Z.gtb_ltb in E. apply Z.ltb_ge in E. lia. }
  assert (Hd : wrap_u64 (next_delay (arch_rng_buf_idx s'))
               = ARCH_REFILL_TICKS
                 + ARCH_REFILL_TICKS * arch_rng_buf_idx s' / ARCH_RNG_BUF_SIZE).
  { unfold next_delay. set (T := ARCH_REFILL_TICKS) in *.
    set (R := arch_rng_buf_idx s') in *.
    unfold ARCH_RNG_BUF_SIZE in *.
    assert (0 <= T * R <= T * 2048) by nia.
    assert (0 <= T * R / 2048 <= T).
    { split; [apply Z.div_pos; lia |].
      apply Z.div_le_upper_bound; lia. }
    rewrite (wrap_u32_small T) by lia.
    rewrite (wrap_u32_small (T * R)) by lia.
    rewrite wrap_u32_small by lia.
    apply wrap_u64_small. lia. }
  rewrite Hd in Hwork, Hlog.
  exists s'. split; [exact Hr |]. split; [exact Hidx |].
  split; [exact Hwork |]. split.
  { rewrite Hlog, last_app_cons.
    destruct (arch_rng_buf_idx s >? ARCH_RNG_BUF_SIZE); reflexivity. }
  rewrite Hwork. unfold ARCH_REFILL_TICKS, ARCH_RNG_BUF_SIZE.
  split; intros -> ->; reflexivity.
Qed.

(** ** The init call *)

(** C7.  From the boot state: if either PRNO subfunction is missing the
    call returns 0 and changes nothing (no allocation, key still false); if
    both are there and kmalloc fails it returns -ENOMEM with the work not
    armed and the key still false; if kmalloc succeeds it allocates, then
    arms the work with ARCH_REFILL_TICKS, then enables the key, in that
    order, and returns 0.  No later operation changes the key. *)
Theorem init_outcomes (hw : trng_state) :
  s390_arch_random_available (boot hw) = false
  /\ (cpacf_query_func CPACF_PRNO CPACF_PRNO_TRNG = false
      \/ cpacf_query_func CPACF_PRNO CPACF_PRNO_SHA512_DRNG_GEN = false ->
      s390_arch_random_init (boot hw) = Ok 0 (boot hw))
  /\ (cpacf_query_func CPACF_PRNO CPACF_PRNO_TRNG = true ->
      cpacf_query_func CPACF_PRNO CPACF_PRNO_SHA512_DRNG_GEN = true ->
      kmalloc ARCH_RNG_BUF_SIZE = None ->
      exists s',
        s390_arch_random_init (boot hw) = Ok (- ENOMEM) s'
        /\ s390_arch_random_available s' = false
        /\ arch_rng_buf s' = None
        /\ arch_rng_work s' = None
        /\ klog s' = [EvKmalloc ARCH_RNG_BUF_SIZE])
  /\ (cpacf_query_func CPACF_PRNO CPACF_PRNO_TRNG = true ->
      cpacf_query_func CPACF_PRNO CPACF_PRNO_SHA512_DRNG_GEN = true ->
      forall m, kmalloc ARCH_RNG_BUF_SIZE = Some m ->
      0 <= HZ < 2 ^ 31 ->
      exists s',
        s390_arch_random_init (boot hw) = Ok 0 s'
        /\ arch_rng_buf s' = Some m
        /\ size m = ARCH_RNG_BUF_SIZE
        /\ arch_rng_buf_idx s' = 0
        /\ arch_rng_work s' = Some ARCH_REFILL_TICKS
        /\ s390_arch_random_available s' = true
        /\ klog s' = [EvKmalloc ARCH_RNG_BUF_SIZE;
                      EvQueueDelayedWork ARCH_REFILL_TICKS;
                      EvStaticBranchEnable])
  /\ (forall s o r s',
        step o s = Ok r s' ->
        s390_arch_random_available s' = s390_arch_random_available s).
Proof.
  split; [reflexivity |]. split; [| split; [| split]].
  - intros H. unfold s390_arch_random_init.
    destruct H as [H | H]; rewrite H; [reflexivity |].
    rewrite andb_false_r. reflexivity.
  - intros H1 H2 Hk. unfold s390_arch_random_init. rewrite H1, H2. simpl.
    munfold. simpl. rewrite Hk. eexists. split; [reflexivity |].
    simpl. auto.
  - intros H1 H2 m Hk Hz. unfold s390_arch_random_init. rewrite H1, H2. simpl.
    munfold. simpl. rewrite Hk. simpl.
    assert (Hd : wrap_u64 ARCH_REFILL_TICKS = ARCH_REFILL_TICKS).
    { apply wrap_u64_small. unfold ARCH_REFILL_TICKS.
      pose proof (Z.quot_pos HZ 2). pose proof (Z.quot_lt HZ 2).
      assert (HZ = 0 \/ 0 < HZ) as [E | E] by lia.
      - rewrite E. cbn. lia.
      - lia. }
    rewrite Hd. eexists. split; [reflexivity |]. simpl.
    repeat split; auto. apply (kmalloc_size _ _ Hk).
  - intros s o r s' H. apply (step_available _ _ _ _ H).
Qed.

(** ** Runs *)

Lemma init_keeps_cursor_and_counter (s : machine) (r : Z) (s' : machine) :
  s390_arch_random_init s = Ok r s' ->
  arch_rng_buf_idx s' = arch_rng_buf_idx s
  /\ s390_arch_random_counter s' = s390_arch_random_counter s.
Proof.
  unfold s390_arch_random_init.
  destruct (_ && _).
  2:{ intros H. inversion H; subst. auto. }
  munfold. simpl. destruct (kmalloc ARCH_RNG_BUF_SIZE); simpl.
  - destruct (arch_rng_work s); intros H; inversion H; subst; simpl; auto.
  - intros H. inversion H; subst. simpl. auto.
Qed.

Lemma run_cons_inv (o : op) (ops : list op) (s : machine)
      (rs : list outcome) (s' : machine) :
  run (o :: ops) s = Ok rs s' ->
  exists r s1 rs1,
    step o s = Ok r s1 /\ run ops s1 = Ok rs1 s' /\ rs = r :: rs1.
Proof.
  simpl. unfold bind at 1.
  destruct (step o s) as [r s1 |] eqn:E1; [| discriminate].
  unfold bind at 1.
  destruct (run ops s1) as [rs1 s2 |] eqn:E2; [| discriminate].
  unfold ret. intros H. inversion H; subst. exists r, s1, rs1. auto.
Qed.

Lemma run_cons_intro (o : op) (ops : list op) (s s1 s' : machine)
      (r : outcome) (rs : list outcome) :
  step o s = Ok r s1 -> run ops s1 = Ok rs s' ->
  run (o :: ops) s = Ok (r :: rs) s'.
Proof.
  intros H1 H2. simpl. unfold bind at 1. rewrite H1.
  unfold bind at 1. rewrite H2. reflexivity.
Qed.

Lemma run_app_inv (ops1 ops2 : list op) (s : machine)
      (rs : list outcome) (s' : machine) :
  run (ops1 ++ ops2) s = Ok rs s' ->
  exists rs1 s1 rs2,
    run ops1 s = Ok rs1 s1 /\ run ops2 s1 = Ok rs2 s' /\ rs = rs1 ++ rs2.
Proof.
  revert s rs. induction ops1 as [| o ops1 IH]; intros s rs H.
  - exists [], s, rs. auto.
  - rewrite <- app_comm_cons in H. apply run_cons_inv in H.
    destruct H as (r & s1 & rs' & Hs & Hr & ->).
    destruct (IH _ _ Hr) as (rs1 & s2 & rs2 & H1 & H2 & ->).
    exists (r :: rs1), s2, rs2. split; [| auto].
    apply (run_cons_intro _ _ _ _ _ _ _ Hs H1).
Qed.

Lemma run_app_intro (ops1 ops2 : list op) (s s1 s' : machine)
      (rs1 rs2 : list outcome) :
  run ops1 s = Ok rs1 s1 -> run ops2 s1 = Ok rs2 s' ->
  run (ops1 ++ ops2) s = Ok (rs1 ++ rs2) s'.
Proof.
  revert s rs1. induction ops1 as [| o ops1 IH]; intros s rs1 H1 H2.
  - inversion H1; subst. exact H2.
  - apply run_cons_inv in H1. destruct H1 as (r & s2 & rs' & Hs & Hr & ->).
    rewrite <- !app_comm_cons.
    apply (run_cons_intro _ _ _ _ _ _ _ Hs). apply (IH _ _ Hr H2).
Qed.

Lemma run_length (ops : list op) (s : machine)
      (rs : list outcome) (s' : machine) :
  run ops s = Ok rs s' -> length rs = length ops.
Proof.
  revert s rs. induction ops as [| o ops IH]; intros s rs H.
  - inversion H. reflexivity.
  - apply run_cons_inv in H. destruct H as (r & s1 & rs1 & _ & Hr & ->).
    simpl. f_equal. apply (IH _ _ Hr).
Qed.

Lemma reachable_run (ops : list op) (s : machine)
      (rs : list outcome) (s' : machine) :
  reachable s -> run ops s = Ok rs s' -> reachable s'.
Proof.
  revert s rs. induction ops as [| o ops IH]; intros s rs Hs H.
  - inversion H; subst. exact Hs.
  - apply run_cons_inv in H. destruct H as (r & s1 & rs1 & H1 & Hr & _).
    apply (IH s1 rs1); [| exact Hr]. apply (reach_step s o r s1 Hs H1).
Qed.

Lemma total_served_app (ops1 ops2 : list op) (rs1 rs2 : list outcome) :
  length rs1 = length ops1 ->
  total_served (ops1 ++ ops2) (rs1 ++ rs2)
  = total_served ops1 rs1 + total_served ops2 rs2.
Proof.
  revert rs1. induction ops1 as [| o ops1 IH]; intros [| r rs1] H;
    try discriminate; simpl.
  - reflexivity.
  - rewrite IH by (simpl in H; lia). lia.
Qed.

Lemma bytes_served_nonneg (o : op) (r : outcome) :
  0 <= nbytes_of o -> 0 <= bytes_served o r.
Proof.
  destruct o as [b n | b n |], r as [[] b' |]; simpl; lia.
Qed.

Lemma total_served_nonneg (ops : list op) (rs : list outcome) :
  Forall (fun o => 0 <= nbytes_of o) ops -> 0 <= total_served ops rs.
Proof.
  intros H. revert rs. induction H as [| o ops Ho _ IH]; intros [| r rs];
    simpl; try lia.
  pose proof (bytes_served_nonneg o r Ho). specialize (IH rs). lia.
Qed.

Lemma run_counter (ops : list op) (s : machine)
      (rs : list outcome) (s' : machine) :
  run ops s = Ok rs s' ->
  - 2 ^ 63 <= s390_arch_random_counter s < 2 ^ 63 ->
  s390_arch_random_counter s'
  = wrap_s64 (s390_arch_random_counter s + total_served ops rs).
Proof.
  revert s rs. induction ops as [| o ops IH]; intros s rs H Hc.
  - inversion H; subst. simpl. rewrite Z.add_0_r, wrap_s64_small; auto.
  - apply run_cons_inv in H. destruct H as (r & s1 & rs1 & H1 & Hr & ->).
    simpl. destruct (step_counter _ _ _ _ H1) as [[Hz Hsame] | Hadd].
    + rewrite Hz. simpl. rewrite (IH _ _ Hr) by (rewrite Hsame; exact Hc).
      rewrite Hsame. reflexivity.
    + rewrite (IH _ _ Hr) by (rewrite Hadd; apply wrap_s64_range).
      rewrite Hadd, wrap_s64_add_l. f_equal. lia.
Qed.

Lemma reachable_cursor (s : machine) :
  reachable s -> 0 <= arch_rng_buf_idx s < 2 ^ 32.
Proof.
  induction 1 as [hw s Hi _ | s o r s' _ IH Hs].
  - apply init_keeps_cursor_and_counter in Hi. destruct Hi as [-> _].
    simpl. lia.
  - apply (step_cursor _ _ _ _ Hs IH).
Qed.

(** C3, as amended.  In every state reached from the initial one by callers
    and worker runs, the cursor is an unsigned 32-bit value; it is within
    [0, ARCH_RNG_BUF_SIZE] right after every run of the worker and within
    [0, ARCH_RNG_BUF_SIZE) right after every call that returned [true]. *)
Theorem cursor_in_range_after_worker_or_hit (s : machine) :
  reachable s ->
  0 <= arch_rng_buf_idx s < 2 ^ 32
  /\ (forall r s', step Fire s = Ok r s' ->
                   0 <= arch_rng_buf_idx s' <= ARCH_RNG_BUF_SIZE)
  /\ (forall buf nbytes out s',
        step (Generate buf nbytes) s = Ok (Generated true out) s' ->
        0 <= arch_rng_buf_idx s' < ARCH_RNG_BUF_SIZE).
Proof.
  intros Hs. pose proof (reachable_cursor s Hs) as Hi.
  split; [exact Hi |]. split.
  - intros r s' H. destruct (step_cursor _ _ _ _ H Hi) as (Hr & Hf & _).
    specialize (Hf eq_refl). lia.
  - intros buf n out s' H. destruct (step_cursor _ _ _ _ H Hi) as (Hr & _ & Hg).
    specialize (Hg out eq_refl). lia.
Qed.

(** C8, as amended.  After any run from the initial state the counter is
    the sum of the sizes of the calls that returned [true], as a signed
    64-bit value; as long as that sum is below 2^63 it is the sum itself and
    the counter at any earlier point of the run is no larger. *)
Theorem counter_is_sum_of_served
  (hw : trng_state) (s0 : machine) (ops : list op)
  (rs : list outcome) (s : machine) :
  s390_arch_random_init (boot hw) = Ok 0 s0 ->
  run ops s0 = Ok rs s ->
  s390_arch_random_counter s = wrap_s64 (total_served ops rs)
  /\ (Forall (fun o => 0 <= nbytes_of o) ops ->
      total_served ops rs < 2 ^ 63 ->
      s390_arch_random_counter s = total_served ops rs
      /\ forall ops1 ops2 rs1 s1,
           ops = ops1 ++ ops2 ->
           run ops1 s0 = Ok rs1 s1 ->
           s390_arch_random_counter s1 <= s390_arch_random_counter s).
Proof.
  intros Hi Hrun.
  apply init_keeps_cursor_and_counter in Hi. destruct Hi as [_ Hc0].
  simpl in Hc0.
  assert (Hsum : forall ops' rs' s',
             run ops' s0 = Ok rs' s' ->
             s390_arch_random_counter s' = wrap_s64 (total_served ops' rs')).
  { intros ops' rs' s' H. rewrite (run_counter _ _ _ _ H) by (rewrite Hc0; lia).
    rewrite Hc0. reflexivity. }
  split; [apply (Hsum _ _ _ Hrun) |].
  intros Hv Hlt.
  pose proof (total_served_nonneg ops rs Hv) as H0.
  split.
  - rewrite (Hsum _ _ _ Hrun). apply wrap_s64_small. lia.
  - intros ops1 ops2 rs1 s1 -> H1.
    destruct (run_app_inv _ _ _ _ _ Hrun) as (rs1' & s1' & rs2 & H1' & H2 & ->).
    rewrite H1 in H1'. inversion H1'; subst rs1' s1'. clear H1'.
    rewrite total_served_app in Hlt, H0 by apply (run_length _ _ _ _ H1).
    apply Forall_app in Hv. destruct Hv as [Hv1 Hv2].
    pose proof (total_served_nonneg ops1 rs1 Hv1).
    pose proof (total_served_nonneg ops2 rs2 Hv2).
    rewrite (Hsum _ _ _ Hrun), (Hsum _ _ _ H1).
    rewrite total_served_app by apply (run_length _ _ _ _ H1).
    rewrite !wrap_s64_small by lia. lia.
Qed.

(** ** Whole fills, repeated *)

Lemma step_generate_intro (buf : list u8) (nbytes : Z) (s : machine)
      (r : bool * list u8) (s' : machine) :
  s390_arch_random_generate buf nbytes s = Ok r s' ->
  step (Generate buf nbytes) s = Ok (Generated (fst r) (snd r)) s'.
Proof. intros H. unfold step, bind. rewrite H. reflexivity. Qed.

Lemma step_fire_intro (s : machine) (d : Z) (s' : machine) :
  arch_rng_work s = Some d ->
  arch_rng_refill_buffer (set_work None s) = Ok tt s' ->
  step Fire s = Ok Fired s'.
Proof.
  intros Hw H. unfold step, run_delayed_work, bind, gets, modify.
  rewrite Hw, H. reflexivity.
Qed.

(** The worker's run on a wrapped cursor, then a caller taking the whole
    buffer. *)
Lemma refill_then_take_all (s : machine) :
  cycle_start s ->
  exists rs s',
    run [Fire; Generate (zeros 2048) 2048] s = Ok rs s'
    /\ rs = [Fired; Generated true (refilled (trng s))]
    /\ arch_rng_lock s' = false
    /\ arch_rng_buf s' = Some (refilled (trng s))
    /\ (exists d, arch_rng_work s' = Some d)
    /\ arch_rng_buf_idx s' = 0
    /\ s390_arch_random_counter s'
       = wrap_s64 (s390_arch_random_counter s + ARCH_RNG_BUF_SIZE).
Proof.
  intros (Hl & Hb & (d & Hw) & Hi).
  destruct (refill_spec (set_work None s)) as
    (s1 & Hr & Hidx & Hbuf & _ & Hc & _ & Hl1 & Hw1 & _).
  { exact Hl. }
  { intros _. exact Hb. }
  simpl in Hidx, Hbuf, Hc, Hw1. rewrite Hi in Hidx, Hbuf.
  change (2 ^ 32 - 1 >? ARCH_RNG_BUF_SIZE) with true in Hidx, Hbuf.
  assert (Hsz : size (refilled (trng s)) = ARCH_RNG_BUF_SIZE).
  { unfold refilled. apply cpacf_prno_gen_size. unfold ARCH_RNG_BUF_SIZE. lia. }
  pose proof (generate_hit (zeros 2048) 2048 s1 (refilled (trng s)) Hl1 Hbuf)
    as Hg.
  rewrite Hidx in Hg.
  change (wrap_u32 (ARCH_RNG_BUF_SIZE - 2048)) with 0 in Hg.
  rewrite Hsz in Hg.
  specialize (Hg ltac:(unfold ARCH_RNG_BUF_SIZE; lia)
                 ltac:(vm_compute; discriminate)
                 ltac:(unfold ARCH_RNG_BUF_SIZE; lia)
                 ltac:(unfold ARCH_RNG_BUF_SIZE; lia)).
  change (skipn (Z.to_nat 2048) (zeros 2048)) with (@nil u8) in Hg.
  rewrite app_nil_r in Hg. change (Z.to_nat 0) with 0%nat in Hg.
  rewrite skipn_O in Hg.
  rewrite firstn_all2 in Hg
    by (unfold size, ARCH_RNG_BUF_SIZE in Hsz; lia).
  apply step_generate_intro in Hg. simpl fst in Hg. simpl snd in Hg.
  pose proof (step_fire_intro s d s1 Hw Hr) as Hf.
  eexists. eexists. split.
  { eapply run_cons_intro; [exact Hf |].
    eapply run_cons_intro; [exact Hg |]. reflexivity. }
  simpl. rewrite Hc. repeat split; auto.
  rewrite Hw1. eexists. reflexivity.
Qed.

Lemma cycle_once (s : machine) :
  cycle_start s ->
  exists rs s',
    run refill_cycle s = Ok rs s'
    /\ cycle_start s'
    /\ s390_arch_random_counter s'
       = wrap_s64 (s390_arch_random_counter s + ARCH_RNG_BUF_SIZE).
Proof.
  intros Hs.
  destruct (refill_then_take_all s Hs) as
    (rs & s2 & Hrun & _ & Hl & Hb & Hw & Hi & Hc).
  assert (Hm : s390_arch_random_generate (zeros 1) 1 s2
               = Ok (false, zeros 1)
                    (log EvSpinUnlock
                       (set_lock false
                          (set_idx (wrap_u32 (arch_rng_buf_idx s2 - 1))
                             (log EvSpinLock (set_lock true s2)))))).
  { apply generate_miss; auto.
    - unfold ARCH_RNG_BUF_SIZE. lia.
    - rewrite Hi. vm_compute. discriminate. }
  apply step_generate_intro in Hm.
  eexists. eexists. split.
  { change refill_cycle
      with ([Fire; Generate (zeros 2048) 2048] ++ [Generate (zeros 1) 1]).
    eapply run_app_intro; [exact Hrun |].
    eapply run_cons_intro; [exact Hm |]. reflexivity. }
  split; [| exact Hc].
  unfold cycle_start. simpl. rewrite Hi. repeat split; auto.
  exists (refilled (trng s)). split; [exact Hb |].
  unfold refilled. apply cpacf_prno_gen_size. unfold ARCH_RNG_BUF_SIZE. lia.
Qed.

Lemma cycles_succ (k : N) : cycles (N.succ k) = refill_cycle ++ cycles k.
Proof. unfold cycles. apply N.iter_succ. Qed.

Lemma cycles_run (k : N) :
  forall s,
    cycle_start s ->
    - 2 ^ 63 <= s390_arch_random_counter s < 2 ^ 63 ->
    exists rs s',
      run (cycles k) s = Ok rs s'
      /\ cycle_start s'
      /\ s390_arch_random_counter s'
         = wrap_s64 (s390_arch_random_counter s
                     + Z.of_N k * ARCH_RNG_BUF_SIZE).
Proof.
  induction k as [| k IH] using N.peano_ind; intros s Hs Hc.
  - exists [], s. split; [reflexivity |]. split; [exact Hs |].
    rewrite Z.mul_0_l, Z.add_0_r. symmetry. apply wrap_s64_small. exact Hc.
  - destruct (cycle_once s Hs) as (rs1 & s1 & Hrun1 & Hs1 & Hc1).
    destruct (IH s1 Hs1) as (rs2 & s2 & Hrun2 & Hs2 & Hc2).
    { rewrite Hc1. apply wrap_s64_range. }
    exists (rs1 ++ rs2), s2. split; [| split; [exact Hs2 |]].
    + rewrite cycles_succ. apply (run_app_intro _ _ _ _ _ _ _ Hrun1 Hrun2).
    + rewrite Hc2, Hc1, wrap_s64_add_l. f_equal. lia.
Qed.

(** ** A sequence of callers within one fill *)

Lemma requested_nonneg (reqs : list (list u8 * Z)) :
  Forall request_ok reqs -> 0 <= requested reqs.
Proof.
  induction 1 as [| q reqs Hq _ IH]; simpl; [lia |].
  unfold request_ok in Hq. lia.
Qed.

Lemma generate_seq_serves (m : list u8) (reqs : list (list u8 * Z)) :
  forall s,
    arch_rng_lock s = false ->
    arch_rng_buf s = Some m ->
    size m = ARCH_RNG_BUF_SIZE ->
    0 <= arch_rng_buf_idx s <= ARCH_RNG_BUF_SIZE ->
    arch_rng_buf_idx s < ARCH_RNG_BUF_SIZE \/ first_positive reqs ->
    Forall request_ok reqs ->
    requested reqs <= arch_rng_buf_idx s ->
    exists tr s',
      generate_seq reqs s = Ok tr s'
      /\ arch_rng_buf_idx s' = arch_rng_buf_idx s - requested reqs
      /\ Forall (fun a => sv_ok a = true /\ 0 <= sv_len a
                          /\ arch_rng_buf_idx s' <= sv_lo a
                          /\ sv_lo a + sv_len a <= arch_rng_buf_idx s) tr
      /\ StronglySorted (fun a b => sv_lo b + sv_len b <= sv_lo a) tr
      /\ Forall2 (fun q a =>
                    sv_len a = snd q
                    /\ sv_out a
                       = firstn (Z.to_nat (sv_len a))
                           (skipn (Z.to_nat (sv_lo a)) m)
                         ++ skipn (Z.to_nat (sv_len a)) (fst q)) reqs tr.
Proof.
  induction reqs as [| [buf n] reqs IH]; intros s Hl Hb Hsz Hi Hfull Hok Hsum.
  - exists [], s. simpl. unfold ret. repeat split; auto; try lia; constructor.
  - inversion Hok as [| q l Hq Hok']; subst. unfold request_ok in Hq.
    simpl in Hq, Hsum. pose proof (requested_nonneg reqs Hok') as Hrest.
    assert (Hlt : arch_rng_buf_idx s - n < ARCH_RNG_BUF_SIZE).
    { destruct Hfull as [H | H]; [lia | simpl in H; lia]. }
    assert (Hw : wrap_u32 (arch_rng_buf_idx s - n) = arch_rng_buf_idx s - n).
    { apply wrap_u32_small. unfold ARCH_RNG_BUF_SIZE in *. lia. }
    simpl. unfold bind at 1.
    rewrite (generate_hit buf n s m); rewrite ?Hw; try lia; auto.
    set (s1 := log EvSpinUnlock _).
    unfold bind at 1, gets at 1. unfold bind at 1.
    destruct (IH s1) as (tr & s' & Hrun & Hidx & Hall & Hsorted & Hout);
      try (subst s1; simpl; rewrite ?Hw; auto; lia).
    rewrite Hrun. unfold ret. simpl in Hidx, Hall.
    eexists. exists s'. split; [reflexivity |].
    split; [lia |]. split; [| split].
    + constructor; [simpl; repeat split; lia |].
      eapply Forall_impl; [| exact Hall]. simpl. intros a Ha. intuition lia.
    + constructor; [exact Hsorted |].
      eapply Forall_impl; [| exact Hall]. simpl. intros a Ha. intuition lia.
    + constructor; [| exact Hout]. simpl. auto.
Qed.

(** C4, as amended.  Starting with the cursor at ARCH_RNG_BUF_SIZE right
    after a refill, every sequence of calls whose sizes sum to at most
    ARCH_RNG_BUF_SIZE, and whose first call asks for at least one byte
    (later sizes may be zero), has all calls return [true]; each call is
    served the buffer bytes of its own range, no byte index lies in two of
    the ranges, and the cursor never grows from one call to the next. *)
Theorem fill_cycle_serves_disjoint_ranges
  (reqs : list (list u8 * Z)) (s : machine) (m : list u8) :
  arch_rng_lock s = false ->
  arch_rng_buf s = Some m ->
  size m = ARCH_RNG_BUF_SIZE ->
  arch_rng_buf_idx s = ARCH_RNG_BUF_SIZE ->
  Forall request_ok reqs ->
  requested reqs <= ARCH_RNG_BUF_SIZE ->
  first_positive reqs ->
  exists tr s',
    generate_seq reqs s = Ok tr s'
    /\ Forall (fun a => sv_ok a = true) tr
    /\ ranges_disjoint tr
    /\ cursor_shrinks tr
    /\ Forall (fun a => 0 <= sv_lo a
                        /\ sv_lo a + sv_len a <= ARCH_RNG_BUF_SIZE) tr
    /\ Forall2 (fun q a =>
                  sv_len a = snd q
                  /\ sv_out a
                     = firstn (Z.to_nat (sv_len a))
                         (skipn (Z.to_nat (sv_lo a)) m)
                       ++ skipn (Z.to_nat (sv_len a)) (fst q)) reqs tr
    /\ arch_rng_buf_idx s' = ARCH_RNG_BUF_SIZE - requested reqs.
Proof.
  intros Hl Hb Hsz Hi Hok Hsum Hfirst.
  destruct (generate_seq_serves m reqs s) as
    (tr & s' & Hrun & Hidx & Hall & Hsorted & Hout); auto;
    try (rewrite Hi; unfold ARCH_RNG_BUF_SIZE in *; lia).
  exists tr, s'. split; [exact Hrun |].
  pose proof (requested_nonneg reqs Hok) as Hreq.
  pose proof (sorted_nth_error _ tr Hsorted) as Hnth.
  rewrite Forall_forall in Hall.
  split; [| split; [| split; [| split; [| split]]]].
  - apply Forall_forall. intros a Ha. apply (Hall a Ha).
  - intros i j a b k Hij Ha Hb' [Hka Hkb]. unfold in_range in *.
    assert ((i < j)%nat \/ (j < i)%nat) as [Hlt | Hlt] by lia.
    + pose proof (Hnth i j a b Hlt Ha Hb'). simpl in *. lia.
    + pose proof (Hnth j i b a Hlt Hb' Ha). simpl in *. lia.
  - intros i a b Ha Hb'.
    assert (Hlt : (i < S i)%nat) by lia.
    pose proof (Hnth i (S i) a b Hlt Ha Hb') as H. simpl in H.
    apply nth_error_In in Hb'. destruct (Hall b Hb') as (_ & Hlen & _). lia.
  - apply Forall_forall. intros a Ha.
    destruct (Hall a Ha) as (_ & Hlen & Hlo & Hhi). lia.
  - exact Hout.
  - lia.
Qed.

End Properties.

(** * Further properties of the three functions *)

Lemma firstn_app_exact {A} (n : nat) (l1 l2 : list A) :
  length l1 = n -> firstn n (l1 ++ l2) = l1.
Proof.
  intros <-. rewrite firstn_app, Nat.sub_diag, firstn_all. simpl.
  apply app_nil_r.
Qed.

Lemma skipn_app_exact {A} (n : nat) (l1 l2 : list A) :
  length l1 = n -> skipn n (l1 ++ l2) = l2.
Proof.
  intros <-. rewrite skipn_app, Nat.sub_diag, skipn_all. reflexivity.
Qed.

Lemma all_missed_sorted (R : served -> served -> Prop) (tr : list served) :
  (forall a b, sv_ok b = false -> R a b) ->
  Forall (fun a => sv_ok a = false) tr ->
  StronglySorted R tr.
Proof.
  intros HR. induction 1 as [| a tr Ha Htr IH]; constructor; auto.
  eapply Forall_impl; [| exact Htr]. intros b Hb. apply HR. exact Hb.
Qed.

Section Further.

Context {P : Platform}.

Ltac kunfold :=
  unfold s390_arch_random_generate, arch_rng_refill_buffer,
    s390_arch_random_init, run_delayed_work, while_locked,
    spin_trylock, spin_lock, spin_unlock, atomic64_add,
    memcpy_from_rng_buf, queue_delayed_work, static_branch_enable,
    kmalloc_arch_rng_buf, cpacf_trng_seed, cpacf_prno_gen_arch_rng_buf,
    bind, ret, gets, modify, raise.

Ltac zlia := unfold ARCH_RNG_BUF_SIZE in *; lia.

Ltac proj :=
  cbn [arch_rng_buf_idx arch_rng_buf arch_rng_lock s390_arch_random_counter
       s390_arch_random_available arch_rng_work trng klog
       log set_lock set_idx set_counter set_work set_buf set_trng
       set_available] in *.

(** ** What a call leaves alone *)

(** X1.  A call made while another context holds the lock is answered
    [false] whatever its size and whatever the cursor and the buffer are
    (NULL included): nothing of the state and nothing of the caller's buffer
    changes, and no memory is touched.  So a run with such a call in it ends
    in the same state, with the same results for everyone else, as the run
    without it. *)
Theorem contended_call_is_invisible
  (buf : list u8) (nbytes : Z) (ops1 ops2 : list op) (s : machine) :
  step (GenerateBusy buf nbytes) s = Ok (Generated false buf) s
  /\ (forall rs s',
        run (ops1 ++ GenerateBusy buf nbytes :: ops2) s = Ok rs s' ->
        exists rs1 rs2,
          rs = rs1 ++ Generated false buf :: rs2
          /\ length rs1 = length ops1
          /\ run (ops1 ++ ops2) s = Ok (rs1 ++ rs2) s')
  /\ (forall rs1 s1 rs2 s',
        run ops1 s = Ok rs1 s1 -> run ops2 s1 = Ok rs2 s' ->
        run (ops1 ++ GenerateBusy buf nbytes :: ops2) s
        = Ok (rs1 ++ Generated false buf :: rs2) s').
Proof.
  assert (Hbusy : forall s0,
             step (GenerateBusy buf nbytes) s0 = Ok (Generated false buf) s0).
  { intros s0. unfold step, while_locked, bind, ret, gets, modify.
    rewrite generate_contended by reflexivity. simpl.
    rewrite set_lock_same. reflexivity. }
  split; [apply Hbusy |]. split.
  - intros rs s' H.
    apply run_app_inv in H. destruct H as (rs1 & s1 & rs' & H1 & H2 & ->).
    apply run_cons_inv in H2. destruct H2 as (r & s2 & rs2 & Hs & H2 & ->).
    rewrite Hbusy in Hs. inversion Hs; subst r s2.
    exists rs1, rs2. split; [reflexivity |].
    split; [apply (run_length _ _ _ _ H1) |].
    apply (run_app_intro _ _ _ _ _ _ _ H1 H2).
  - intros rs1 s1 rs2 s' H1 H2.
    eapply run_app_intro; [exact H1 |].
    eapply run_cons_intro; [apply Hbusy | exact H2].
Qed.

(** X2.  Whatever a call returns, it leaves the lock as it found it (taken
    and released in between, or never touched), and it never changes the
    buffer contents, the pending work, the entropy source or the static key:
    only the cursor and the counter can differ afterwards. *)
Theorem generate_frame
  (buf : list u8) (nbytes : Z) (s : machine)
  (r : bool * list u8) (s' : machine) :
  s390_arch_random_generate buf nbytes s = Ok r s' ->
  arch_rng_lock s' = arch_rng_lock s
  /\ arch_rng_buf s' = arch_rng_buf s
  /\ arch_rng_work s' = arch_rng_work s
  /\ trng s' = trng s
  /\ s390_arch_random_available s' = s390_arch_random_available s
  /\ (klog s' = klog s
      \/ (arch_rng_lock s = false
          /\ klog s' = klog s ++ [EvSpinLock; EvSpinUnlock]))
  /\ (fst r = false ->
      s390_arch_random_counter s' = s390_arch_random_counter s).
Proof.
  intros H. apply generate_cases in H.
  destruct H as [[-> ->] | [(Hl & _ & -> & _ & ->) | (Hl & _ & Hr & _ & ->)]];
    simpl; rewrite <- ?app_assoc; simpl; repeat split; auto.
  rewrite Hr. discriminate.
Qed.

(** ** Calls between two runs of the worker *)

Lemma generate_seq_cons (buf : list u8) (nbytes : Z)
      (reqs : list (list u8 * Z)) (s s1 s' : machine)
      (r : bool * list u8) (tr : list served) :
  s390_arch_random_generate buf nbytes s = Ok r s1 ->
  generate_seq reqs s1 = Ok tr s' ->
  generate_seq ((buf, nbytes) :: reqs) s
  = Ok (mkServed (fst r) (arch_rng_buf_idx s1) nbytes (snd r) :: tr) s'.
Proof.
  intros H1 H2. simpl. unfold bind at 1. rewrite H1.
  unfold bind at 1, gets at 1. unfold bind at 1. rewrite H2. reflexivity.
Qed.

Lemma requested_cons (buf : list u8) (n : Z) (reqs : list (list u8 * Z)) :
  requested ((buf, n) :: reqs) = n + requested reqs.
Proof. reflexivity. Qed.

Lemma requested_sizes_nonneg (reqs : list (list u8 * Z)) :
  Forall (fun q => 0 <= snd q <= ARCH_RNG_BUF_SIZE) reqs -> 0 <= requested reqs.
Proof. induction 1 as [| q reqs Hq _ IH]; simpl; lia. Qed.

(** With the cursor wrapped and far enough above the buffer, every call
    misses and only moves the cursor further down. *)
Lemma generate_seq_wrapped (reqs : list (list u8 * Z)) :
  forall s,
    arch_rng_lock s = false ->
    Forall (fun q => 0 <= snd q <= ARCH_RNG_BUF_SIZE) reqs ->
    ARCH_RNG_BUF_SIZE + requested reqs <= arch_rng_buf_idx s < 2 ^ 32 ->
    exists tr s',
      generate_seq reqs s = Ok tr s'
      /\ Forall (fun a => sv_ok a = false) tr
      /\ arch_rng_buf_idx s' = arch_rng_buf_idx s - requested reqs
      /\ s390_arch_random_counter s' = s390_arch_random_counter s
      /\ arch_rng_buf s' = arch_rng_buf s
      /\ arch_rng_lock s' = false
      /\ Forall2 (fun q a => sv_len a = snd q /\ sv_out a = fst q) reqs tr.
Proof.
  induction reqs as [| [buf n] reqs IH]; intros s Hl Hok Hi.
  - exists [], s. simpl in *. unfold ret. repeat split; auto; try lia.
  - inversion Hok as [| q l Hq Hok']; subst. simpl in Hq.
    rewrite requested_cons in Hi.
    pose proof (requested_sizes_nonneg reqs Hok') as Hrest.
    assert (Hw : wrap_u32 (arch_rng_buf_idx s - n) = arch_rng_buf_idx s - n).
    { apply wrap_u32_small. unfold ARCH_RNG_BUF_SIZE in *. lia. }
    pose proof (generate_miss buf n s Hl ltac:(zlia) ltac:(rewrite Hw; zlia))
      as Hm.
    rewrite Hw in Hm.
    lazymatch type of Hm with
    | _ = Ok _ ?s1 =>
        destruct (IH s1 ltac:(reflexivity) Hok' ltac:(proj; zlia))
          as (tr & s' & Hrun & Hall & Hidx & Hc & Hb & Hl' & Hout)
    end.
    proj.
    eexists. exists s'. split; [apply (generate_seq_cons _ _ _ _ _ _ _ _ Hm Hrun) |].
    split; [constructor; [reflexivity | exact Hall] |].
    split; [rewrite Hidx, requested_cons; lia |].
    split; [exact Hc |]. split; [exact Hb |]. split; [exact Hl' |].
    constructor; [| exact Hout]. simpl. auto.
Qed.

Lemma generate_seq_bounded (m : list u8) (reqs : list (list u8 * Z)) :
  forall s,
    arch_rng_lock s = false ->
    arch_rng_buf s = Some m ->
    size m = ARCH_RNG_BUF_SIZE ->
    0 <= arch_rng_buf_idx s <= ARCH_RNG_BUF_SIZE ->
    Forall (fun q => request_ok q /\ snd q <= ARCH_RNG_BUF_SIZE) reqs ->
    requested reqs <= 2 ^ 32 - ARCH_RNG_BUF_SIZE ->
    exists tr s',
      generate_seq reqs s = Ok tr s'
      /\ arch_rng_buf_idx s' = wrap_u32 (arch_rng_buf_idx s - requested reqs)
      /\ StronglySorted
           (fun a b => sv_ok a = false -> 0 < sv_len a -> sv_ok b = false) tr
      /\ Forall (fun a => sv_ok a = true ->
                          0 <= sv_lo a
                          /\ sv_lo a + sv_len a <= ARCH_RNG_BUF_SIZE) tr
      /\ arch_rng_buf s' = Some m
      /\ arch_rng_lock s' = false.
Proof.
  induction reqs as [| [buf n] reqs IH]; intros s Hl Hb Hsz Hi Hok Hsum.
  - exists [], s. simpl. unfold ret.
    rewrite Z.sub_0_r, wrap_u32_small by (unfold ARCH_RNG_BUF_SIZE in *; lia).
    repeat split; auto; constructor.
  - inversion Hok as [| q l [Hq Hqc] Hok']; subst.
    unfold request_ok in Hq. simpl in Hq, Hqc.
    rewrite requested_cons in Hsum.
    assert (Hsizes : Forall (fun q => 0 <= snd q <= ARCH_RNG_BUF_SIZE) reqs).
    { eapply Forall_impl; [| exact Hok']. unfold request_ok.
      intros q [H1 H2]. lia. }
    pose proof (requested_sizes_nonneg reqs Hsizes) as Hrest.
    destruct (Z_lt_le_dec (arch_rng_buf_idx s) n) as [Hshort | Henough].
    + (* more than is left: the cursor wraps, the rest of the calls miss *)
      assert (Hw : wrap_u32 (arch_rng_buf_idx s - n)
                   = arch_rng_buf_idx s - n + 2 ^ 32).
      { apply wrap_u32_borrow. unfold ARCH_RNG_BUF_SIZE in *. lia. }
      pose proof (generate_miss buf n s Hl Hqc
                    ltac:(rewrite Hw; zlia))
        as Hm.
      rewrite Hw in Hm.
      lazymatch type of Hm with
      | _ = Ok _ ?s1 =>
          destruct (generate_seq_wrapped reqs s1 ltac:(reflexivity) Hsizes
                      ltac:(proj; zlia))
            as (tr & s' & Hrun & Hall & Hidx & _ & Hb' & Hl' & _)
      end.
      proj.
      eexists. exists s'.
      split; [apply (generate_seq_cons _ _ _ _ _ _ _ _ Hm Hrun) |].
      split; [| split; [| split; [| split]]].
      * rewrite Hidx. symmetry.
        rewrite requested_cons.
        replace (arch_rng_buf_idx s - (n + requested reqs))
          with (arch_rng_buf_idx s - n - requested reqs) by lia.
        rewrite wrap_u32_borrow by (unfold ARCH_RNG_BUF_SIZE in *; lia). lia.
      * constructor.
        -- apply all_missed_sorted; [auto | exact Hall].
        -- eapply Forall_impl; [| exact Hall]. auto.
      * constructor; [simpl; discriminate |].
        eapply Forall_impl; [| exact Hall]. simpl.
        intros a Ha Ht. rewrite Ha in Ht. discriminate.
      * rewrite Hb'. exact Hb.
      * exact Hl'.
    + destruct (Z_lt_le_dec (arch_rng_buf_idx s - n) ARCH_RNG_BUF_SIZE)
        as [Hhit | Hfull].
      * (* served from the buffer *)
        assert (Hw : wrap_u32 (arch_rng_buf_idx s - n) = arch_rng_buf_idx s - n).
        { apply wrap_u32_small. unfold ARCH_RNG_BUF_SIZE in *. lia. }
        pose proof (generate_hit buf n s m Hl Hb ltac:(zlia) ltac:(zlia)
                      ltac:(rewrite Hw; zlia) ltac:(rewrite Hw; zlia)) as HH.
        rewrite Hw in HH.
        lazymatch type of HH with
        | _ = Ok _ ?s1 =>
            destruct (IH s1 ltac:(reflexivity) Hb Hsz ltac:(proj; zlia) Hok'
                        ltac:(zlia))
              as (tr & s' & Hrun & Hidx & Hsorted & Hin & Hb' & Hl')
        end.
        proj.
        eexists. exists s'.
        split; [apply (generate_seq_cons _ _ _ _ _ _ _ _ HH Hrun) |].
        split; [| split; [| split; [| split]]]; auto.
        -- rewrite Hidx, requested_cons. f_equal. lia.
        -- constructor; [exact Hsorted |].
           apply Forall_forall. intros b _. simpl. discriminate.
        -- constructor; [simpl; lia | exact Hin].
      * (* zero bytes asked of a full buffer: a miss that moves nothing *)
        assert (Hn0 : n = 0) by lia.
        assert (Hw : wrap_u32 (arch_rng_buf_idx s - n) = arch_rng_buf_idx s).
        { subst n. rewrite Z.sub_0_r. apply wrap_u32_small.
          unfold ARCH_RNG_BUF_SIZE in *. lia. }
        pose proof (generate_miss buf n s Hl Hqc ltac:(rewrite Hw; zlia)) as HH.
        rewrite Hw in HH.
        lazymatch type of HH with
        | _ = Ok _ ?s1 =>
            destruct (IH s1 ltac:(reflexivity) Hb Hsz ltac:(proj; zlia) Hok'
                        ltac:(zlia))
              as (tr & s' & Hrun & Hidx & Hsorted & Hin & Hb' & Hl')
        end.
        proj.
        eexists. exists s'.
        split; [apply (generate_seq_cons _ _ _ _ _ _ _ _ HH Hrun) |].
        split; [| split; [| split; [| split]]]; auto.
        -- rewrite Hidx, requested_cons. f_equal. lia.
        -- constructor; [exact Hsorted |].
           apply Forall_forall. intros b _. simpl. intros _ H. lia.
        -- constructor; [simpl; discriminate | exact Hin].
Qed.

(** X4.  From a state with the cursor inside the buffer, take any sequence
    of calls of at most ARCH_RNG_BUF_SIZE bytes each whose sizes sum to at
    most 2^32 - ARCH_RNG_BUF_SIZE.  Every call returns, none reads outside
    the buffer, and every call, hit or miss, has moved the cursor down by its
    size: the final cursor is the first one minus the sum of all sizes,
    modulo 2^32.  After the first miss of a call for at least one byte every
    later call misses, even one that would fit what is left. *)
Theorem calls_between_worker_runs
  (reqs : list (list u8 * Z)) (s : machine) (m : list u8) :
  arch_rng_lock s = false ->
  arch_rng_buf s = Some m ->
  size m = ARCH_RNG_BUF_SIZE ->
  0 <= arch_rng_buf_idx s <= ARCH_RNG_BUF_SIZE ->
  Forall (fun q => request_ok q /\ snd q <= ARCH_RNG_BUF_SIZE) reqs ->
  requested reqs <= 2 ^ 32 - ARCH_RNG_BUF_SIZE ->
  exists tr s',
    generate_seq reqs s = Ok tr s'
    /\ arch_rng_buf_idx s' = wrap_u32 (arch_rng_buf_idx s - requested reqs)
    /\ sticky_miss tr
    /\ Forall (fun a => sv_ok a = true ->
                        0 <= sv_lo a
                        /\ sv_lo a + sv_len a <= ARCH_RNG_BUF_SIZE) tr
    /\ arch_rng_buf s' = Some m.
Proof.
  intros Hl Hb Hsz Hi Hok Hsum.
  destruct (generate_seq_bounded m reqs s Hl Hb Hsz Hi Hok Hsum)
    as (tr & s' & Hrun & Hidx & Hsorted & Hin & Hb' & _).
  exists tr, s'. repeat split; auto.
  intros i j a b Hij Ha Hb0. apply (sorted_nth_error _ tr Hsorted i j a b Hij Ha Hb0).
Qed.

(** ** The running system stays armed *)

Lemma init_armed (hw : trng_state) (s : machine) :
  s390_arch_random_init (boot hw) = Ok 0 s ->
  s390_arch_random_available s = true ->
  armed s /\ arch_rng_buf_idx s = 0.
Proof.
  unfold s390_arch_random_init.
  destruct (_ && _).
  2:{ unfold ret. intros H. inversion H; subst. discriminate. }
  kunfold. simpl. destruct (kmalloc ARCH_RNG_BUF_SIZE) as [m |] eqn:Hk; simpl.
  - intros H _. inversion H; subst. unfold armed. simpl.
    repeat split; auto.
    + exists m. split; [reflexivity | apply (kmalloc_size _ _ Hk)].
    + eexists. reflexivity.
  - intros H. inversion H.
Qed.

Lemma step_armed (o : op) (s : machine) (r : outcome) (s' : machine) :
  armed s -> step o s = Ok r s' -> armed s'.
Proof.
  intros (Hl & (m & Hb & Hsz) & (d & Hw)) H. destruct o as [buf n | buf n |].
  - apply step_generate_inv in H. destruct H as (r0 & H & _).
    apply generate_cases in H.
    destruct H as [[_ ->] | [(_ & _ & _ & _ & ->) | (_ & _ & _ & _ & ->)]];
      unfold armed; proj; repeat split; eauto.
  - apply step_busy_inv in H. destruct H as [_ ->].
    unfold armed; repeat split; eauto.
  - apply step_fire_inv in H. destruct H as (_ & d' & _ & H).
    destruct (refill_spec (set_work None s)) as
      (s2 & Hr & _ & Hbuf & _ & _ & _ & Hl2 & Hw2 & _).
    { exact Hl. }
    { intros _. exists m. auto. }
    rewrite Hr in H. inversion H; subst s2. proj.
    unfold armed. split; [exact Hl2 |]. split.
    + destruct (arch_rng_buf_idx s >? ARCH_RNG_BUF_SIZE).
      * exists (refilled (trng s)). split; [exact Hbuf |].
        unfold refilled. apply cpacf_prno_gen_size. zlia.
      * exists m. rewrite Hbuf. auto.
    + eexists. exact Hw2.
Qed.

Lemma reachable_armed (s : machine) :
  reachable s -> armed s /\ s390_arch_random_available s = true.
Proof.
  induction 1 as [hw s Hi Ha | s o r s' _ [IHa IHf] Hs].
  - split; [apply (init_armed hw s Hi Ha) | exact Ha].
  - split; [apply (step_armed _ _ _ _ IHa Hs) |].
    rewrite (step_available _ _ _ _ Hs). exact IHf.
Qed.

(** X5.  In every state the system reaches after a successful init, the
    lock is free between operations, the buffer is allocated with exactly
    ARCH_RNG_BUF_SIZE bytes, the static key is on and the work is pending;
    the worker's run from there always returns, leaves the cursor within
    [0, ARCH_RNG_BUF_SIZE], and has queued itself again: the work never ends
    up unarmed. *)
Theorem worker_always_runs_and_rearms (s : machine) :
  reachable s ->
  armed s
  /\ s390_arch_random_available s = true
  /\ exists s',
       step Fire s = Ok Fired s'
       /\ armed s'
       /\ 0 <= arch_rng_buf_idx s' <= ARCH_RNG_BUF_SIZE
       /\ exists delay, last (klog s') EvSpinLock = EvQueueDelayedWork delay
                        /\ arch_rng_work s' = Some delay.
Proof.
  intros Hs. destruct (reachable_armed s Hs) as [Ha Hf].
  split; [exact Ha |]. split; [exact Hf |].
  pose proof Ha as Ha0.
  destruct Ha as (Hl & (m & Hb & Hsz) & (d & Hw)).
  destruct (refill_spec (set_work None s)) as
    (s' & Hr & _ & _ & _ & _ & _ & _ & Hw' & Hlog).
  { exact Hl. }
  { intros _. exists m. auto. }
  proj.
  pose proof (step_fire_intro s d s' Hw Hr) as Hstep.
  exists s'. split; [exact Hstep |].
  split; [apply (step_armed Fire s Fired s' Ha0 Hstep) |].
  destruct (step_cursor _ _ _ _ Hstep (reachable_cursor s Hs)) as (Hr' & Hle & _).
  specialize (Hle eq_refl). split; [lia |].
  eexists. split; [| exact Hw'].
  simpl in Hlog. rewrite Hlog, last_app_cons.
  destruct (arch_rng_buf_idx s >? ARCH_RNG_BUF_SIZE); reflexivity.
Qed.

(** ** The worker's delay *)

Lemma next_delay_exact (R : Z) :
  0 <= ARCH_REFILL_TICKS ->
  ARCH_REFILL_TICKS * ARCH_RNG_BUF_SIZE < 2 ^ 32 ->
  0 <= R <= ARCH_RNG_BUF_SIZE ->
  wrap_u64 (next_delay R)
  = ARCH_REFILL_TICKS + ARCH_REFILL_TICKS * R / ARCH_RNG_BUF_SIZE
  /\ 0 <= ARCH_REFILL_TICKS * R / ARCH_RNG_BUF_SIZE <= ARCH_REFILL_TICKS.
Proof.
  intros Ht Hfit HR. unfold next_delay.
  set (T := ARCH_REFILL_TICKS) in *. unfold ARCH_RNG_BUF_SIZE in *.
  assert (0 <= T * R <= T * 2048) by nia.
  assert (0 <= T * R / 2048 <= T).
  { split; [apply Z.div_pos; lia |]. apply Z.div_le_upper_bound; lia. }
  split; [| assumption].
  rewrite (wrap_u32_small T) by lia.
  rewrite (wrap_u32_small (T * R)) by lia.
  rewrite wrap_u32_small by lia.
  apply wrap_u64_small. lia.
Qed.

(** X6.  Whenever the worker runs (tick rate such that
    ARCH_REFILL_TICKS * ARCH_RNG_BUF_SIZE fits an unsigned int), the delay
    it queues itself with is between ARCH_REFILL_TICKS and twice that: it is
    exactly ARCH_REFILL_TICKS when it finds the buffer drained to 0 (and so
    does not refill), exactly 2 * ARCH_REFILL_TICKS when it has just
    refilled or finds the buffer full, and of two runs the one that finds
    more bytes left waits at least as long. *)
Theorem worker_delay_bounds (s1 s2 : machine) (d1 d2 : Z) :
  0 <= ARCH_REFILL_TICKS ->
  ARCH_REFILL_TICKS * ARCH_RNG_BUF_SIZE < 2 ^ 32 ->
  arch_rng_lock s1 = false -> arch_rng_lock s2 = false ->
  arch_rng_work s1 = Some d1 -> arch_rng_work s2 = Some d2 ->
  (exists m, arch_rng_buf s1 = Some m /\ size m = ARCH_RNG_BUF_SIZE) ->
  (exists m, arch_rng_buf s2 = Some m /\ size m = ARCH_RNG_BUF_SIZE) ->
  0 <= arch_rng_buf_idx s1 -> 0 <= arch_rng_buf_idx s2 ->
  exists s1' s2' d1' d2',
    run_delayed_work s1 = Ok tt s1' /\ arch_rng_work s1' = Some d1'
    /\ run_delayed_work s2 = Ok tt s2' /\ arch_rng_work s2' = Some d2'
    /\ ARCH_REFILL_TICKS <= d1' <= 2 * ARCH_REFILL_TICKS
    /\ (arch_rng_buf_idx s1 = 0 -> d1' = ARCH_REFILL_TICKS)
    /\ (ARCH_RNG_BUF_SIZE <= arch_rng_buf_idx s1 ->
        d1' = 2 * ARCH_REFILL_TICKS)
    /\ (arch_rng_buf_idx s1 <= arch_rng_buf_idx s2 <= ARCH_RNG_BUF_SIZE ->
        d1' <= d2').
Proof.
  intros Ht Hfit Hl1 Hl2 Hw1 Hw2 Hb1 Hb2 Hi1 Hi2.
  assert (Hone : forall s d,
             arch_rng_lock s = false -> arch_rng_work s = Some d ->
             (exists m, arch_rng_buf s = Some m /\ size m = ARCH_RNG_BUF_SIZE) ->
             0 <= arch_rng_buf_idx s ->
             exists s' R,
               run_delayed_work s = Ok tt s'
               /\ R = (if arch_rng_buf_idx s >? ARCH_RNG_BUF_SIZE
                       then ARCH_RNG_BUF_SIZE else arch_rng_buf_idx s)
               /\ 0 <= R <= ARCH_RNG_BUF_SIZE
               /\ arch_rng_work s'
                  = Some (ARCH_REFILL_TICKS
                          + ARCH_REFILL_TICKS * R / ARCH_RNG_BUF_SIZE)).
  { intros s d Hl Hw Hb Hi.
    unfold run_delayed_work, bind, gets, modify. rewrite Hw.
    destruct (refill_spec (set_work None s)) as
      (s' & Hr & Hidx & _ & _ & _ & _ & _ & Hwork & _).
    { exact Hl. }
    { intros _. exact Hb. }
    proj. exists s', (arch_rng_buf_idx s'). split; [exact Hr |].
    split; [exact Hidx |].
    assert (HR : 0 <= arch_rng_buf_idx s' <= ARCH_RNG_BUF_SIZE).
    { rewrite Hidx. destruct (arch_rng_buf_idx s >? ARCH_RNG_BUF_SIZE) eqn:E.
      - zlia.
      - rewrite Z.gtb_ltb in E. apply Z.ltb_ge in E. lia. }
    split; [exact HR |].
    rewrite Hwork. f_equal. apply (next_delay_exact _ Ht Hfit HR). }
  destruct (Hone s1 d1 Hl1 Hw1 Hb1 Hi1) as (s1' & R1 & Hr1 & HR1 & Hb1' & Hd1).
  destruct (Hone s2 d2 Hl2 Hw2 Hb2 Hi2) as (s2' & R2 & Hr2 & HR2 & Hb2' & Hd2).
  destruct (next_delay_exact R1 Ht Hfit Hb1') as (_ & Hq1).
  exists s1', s2'. eexists. eexists.
  split; [exact Hr1 |]. split; [exact Hd1 |].
  split; [exact Hr2 |]. split; [exact Hd2 |].
  split; [lia |]. split; [| split].
  - intros H0. rewrite H0 in HR1.
    change (0 >? ARCH_RNG_BUF_SIZE) with false in HR1. subst R1.
    rewrite Z.mul_0_r. change (0 / ARCH_RNG_BUF_SIZE) with 0. lia.
  - intros Hge.
    assert (R1 = ARCH_RNG_BUF_SIZE) as ->.
    { subst R1. destruct (arch_rng_buf_idx s1 >? ARCH_RNG_BUF_SIZE) eqn:E;
        [reflexivity |].
      rewrite Z.gtb_ltb in E. apply Z.ltb_ge in E. lia. }
    rewrite Z.div_mul by (unfold ARCH_RNG_BUF_SIZE; lia). lia.
  - intros Hle.
    assert (R1 = arch_rng_buf_idx s1) as ->.
    { subst R1. destruct (arch_rng_buf_idx s1 >? ARCH_RNG_BUF_SIZE) eqn:E;
        [| reflexivity].
      rewrite Z.gtb_ltb in E. apply Z.ltb_lt in E. lia. }
    assert (R2 = arch_rng_buf_idx s2) as ->.
    { subst R2. destruct (arch_rng_buf_idx s2 >? ARCH_RNG_BUF_SIZE) eqn:E;
        [| reflexivity].
      rewrite Z.gtb_ltb in E. apply Z.ltb_lt in E. lia. }
    apply Z.add_le_mono_l. apply Z.div_le_mono; [zlia | nia].
Qed.

(** ** The wrapped cursor coming back down to the buffer *)

(** X7.  With the cursor wrapped and standing less than [nbytes] above
    ARCH_RNG_BUF_SIZE, a call for [nbytes] takes the decremented cursor for a
    valid offset and copies from arch_rng_buf + R - nbytes up to
    arch_rng_buf + R, which is beyond the ARCH_RNG_BUF_SIZE bytes
    allocated. *)
Theorem generate_reads_past_buffer
  (buf : list u8) (nbytes : Z) (s : machine) (m : list u8) :
  arch_rng_lock s = false ->
  arch_rng_buf s = Some m ->
  size m = ARCH_RNG_BUF_SIZE ->
  0 < nbytes <= ARCH_RNG_BUF_SIZE ->
  ARCH_RNG_BUF_SIZE < arch_rng_buf_idx s < ARCH_RNG_BUF_SIZE + nbytes ->
  wrap_u32 (arch_rng_buf_idx s - nbytes) < ARCH_RNG_BUF_SIZE
  /\ size m < wrap_u32 (arch_rng_buf_idx s - nbytes) + nbytes
  /\ s390_arch_random_generate buf nbytes s = Fault BadAccess.
Proof.
  intros Hl Hb Hsz Hn Hi.
  assert (Hw : wrap_u32 (arch_rng_buf_idx s - nbytes)
               = arch_rng_buf_idx s - nbytes).
  { apply wrap_u32_small. zlia. }
  rewrite Hw. split; [lia |]. split; [lia |].
  unfold s390_arch_random_generate.
  destruct (nbytes >? ARCH_RNG_BUF_SIZE) eqn:E.
  { rewrite Z.gtb_ltb in E. apply Z.ltb_lt in E. lia. }
  kunfold. rewrite Hl. simpl. rewrite Hw.
  destruct (arch_rng_buf_idx s - nbytes <? ARCH_RNG_BUF_SIZE) eqn:E2.
  2:{ apply Z.ltb_ge in E2. lia. }
  destruct (nbytes =? 0) eqn:E3.
  { apply Z.eqb_eq in E3. lia. }
  simpl. rewrite Hb. unfold mem_read.
  destruct (arch_rng_buf_idx s - nbytes + nbytes <=? size m) eqn:E4.
  { apply Z.leb_le in E4. lia. }
  rewrite andb_false_r. reflexivity.
Qed.

(** X8.  A miss that brings the wrapped cursor down to exactly
    ARCH_RNG_BUF_SIZE makes the buffer look full again although nothing has
    refilled it: the worker, run in that state, does not refill, and the
    next call is served the old contents of the buffer, whatever they are. *)
Theorem miss_landing_on_size_reopens_buffer
  (buf buf2 : list u8) (nbytes nbytes2 : Z) (s : machine) (m : list u8) :
  arch_rng_lock s = false ->
  arch_rng_buf s = Some m ->
  size m = ARCH_RNG_BUF_SIZE ->
  0 < nbytes <= ARCH_RNG_BUF_SIZE ->
  arch_rng_buf_idx s = ARCH_RNG_BUF_SIZE + nbytes ->
  0 < nbytes2 <= ARCH_RNG_BUF_SIZE ->
  nbytes2 <= size buf2 ->
  exists s1 s1' s2,
    s390_arch_random_generate buf nbytes s = Ok (false, buf) s1
    /\ arch_rng_buf_idx s1 = ARCH_RNG_BUF_SIZE
    /\ arch_rng_refill_buffer s1 = Ok tt s1'
    /\ arch_rng_buf s1' = Some m
    /\ arch_rng_buf_idx s1' = ARCH_RNG_BUF_SIZE
    /\ trng s1' = trng s
    /\ s390_arch_random_generate buf2 nbytes2 s1
       = Ok (true,
             firstn (Z.to_nat nbytes2)
               (skipn (Z.to_nat (ARCH_RNG_BUF_SIZE - nbytes2)) m)
             ++ skipn (Z.to_nat nbytes2) buf2) s2
    /\ s390_arch_random_counter s2
       = wrap_s64 (s390_arch_random_counter s + nbytes2).
Proof.
  intros Hl Hb Hsz Hn Hi Hn2 Hroom.
  assert (Hw : wrap_u32 (arch_rng_buf_idx s - nbytes) = ARCH_RNG_BUF_SIZE).
  { rewrite Hi. replace (ARCH_RNG_BUF_SIZE + nbytes - nbytes)
      with ARCH_RNG_BUF_SIZE by lia. reflexivity. }
  pose proof (generate_miss buf nbytes s Hl ltac:(lia) ltac:(rewrite Hw; lia))
    as Hm.
  rewrite Hw in Hm.
  lazymatch type of Hm with
  | _ = Ok _ ?t => set (s1 := t) in *
  end.
  assert (Hw2 : wrap_u32 (arch_rng_buf_idx s1 - nbytes2)
                = ARCH_RNG_BUF_SIZE - nbytes2).
  { subst s1. proj. apply wrap_u32_small. zlia. }
  pose proof (generate_hit buf2 nbytes2 s1 m ltac:(reflexivity)
                ltac:(subst s1; proj; exact Hb) ltac:(lia) Hroom
                ltac:(rewrite Hw2; lia) ltac:(rewrite Hw2; lia)) as Hg.
  rewrite Hw2 in Hg.
  destruct (refill_spec s1) as (s1' & Hr & Hidx & Hbuf & Ht & _).
  { reflexivity. }
  { intros _. exists m. split; [subst s1; proj; exact Hb | exact Hsz]. }
  assert (E : (arch_rng_buf_idx s1 >? ARCH_RNG_BUF_SIZE) = false)
    by (subst s1; proj; reflexivity).
  rewrite E in Hidx, Hbuf, Ht.
  exists s1, s1'. eexists.
  split; [exact Hm |]. split; [reflexivity |]. split; [exact Hr |].
  split; [rewrite Hbuf; subst s1; proj; exact Hb |].
  split; [rewrite Hidx; reflexivity |].
  split; [rewrite Ht; reflexivity |].
  split; [exact Hg |]. reflexivity.
Qed.

(** ** Only DRNG output is handed out *)

Lemma generate_size_check (buf : list u8) (nbytes : Z) (s : machine) :
  ARCH_RNG_BUF_SIZE < nbytes ->
  s390_arch_random_generate buf nbytes s = Ok (false, buf) s.
Proof.
  intros H. unfold s390_arch_random_generate.
  destruct (nbytes >? ARCH_RNG_BUF_SIZE) eqn:E; [reflexivity |].
  rewrite Z.gtb_ltb in E. apply Z.ltb_ge in E. lia.
Qed.

Lemma refilled_size (t : trng_state) : size (refilled t) = ARCH_RNG_BUF_SIZE.
Proof. unfold refilled. apply cpacf_prno_gen_size. zlia. Qed.

Lemma step_fill_inv (o : op) (ops : list op) (b : Z) (s : machine) :
  fill_inv b s -> within_budget b (o :: ops) ->
  exists r s' b',
    step o s = Ok r s' /\ drng_served o r
    /\ fill_inv b' s' /\ within_budget b' ops.
Proof.
  intros (Ha & Hb0 & Hmode) Hbud. pose proof Ha as Ha0.
  destruct Ha as (Hl & (m & Hb & Hsz) & (d & Hw)).
  destruct o as [buf n | buf n |]; simpl in Hbud.
  - (* a caller *)
    destruct Hbud as (Hn & Hroom & Hbud).
    destruct (Z_lt_le_dec ARCH_RNG_BUF_SIZE n) as [Hbig | Hfit].
    { pose proof (generate_size_check buf n s Hbig) as Hg.
      apply step_generate_intro in Hg.
      exists (Generated false buf), s, (b - n).
      split; [exact Hg |]. split; [exact I |]. split; [| exact Hbud].
      split; [exact Ha0 |]. split; [lia |]. destruct Hmode as [(Hi & HJ & Hb') | Hwrap].
      - left. repeat split; auto; lia.
      - right. lia. }
    destruct Hmode as [(Hi & HJ & Hb') | Hwrap].
    + destruct (Z_lt_le_dec (arch_rng_buf_idx s) n) as [Hshort | Henough].
      * (* miss: the cursor wraps *)
        assert (Hwr : wrap_u32 (arch_rng_buf_idx s - n)
                      = arch_rng_buf_idx s - n + 2 ^ 32).
        { apply wrap_u32_borrow. zlia. }
        pose proof (generate_miss buf n s Hl Hfit ltac:(rewrite Hwr; zlia))
          as Hg.
        rewrite Hwr in Hg. pose proof (step_generate_intro _ _ _ _ _ Hg) as Hs.
        eexists. eexists. exists (b - n).
        split; [exact Hs |]. split; [exact I |]. split; [| exact Hbud].
        split; [apply (step_armed _ _ _ _ Ha0 Hs) |].
      split; [unfold FILL_BUDGET; zlia |].
        right. proj. unfold FILL_BUDGET in *. zlia.
      * destruct (Z_lt_le_dec (arch_rng_buf_idx s - n) ARCH_RNG_BUF_SIZE)
          as [Hhit | Hfull].
        -- (* hit *)
           assert (Hwr : wrap_u32 (arch_rng_buf_idx s - n)
                         = arch_rng_buf_idx s - n).
           { apply wrap_u32_small. zlia. }
           pose proof (generate_hit buf n s m Hl Hb ltac:(lia) Hroom
                         ltac:(rewrite Hwr; lia) ltac:(rewrite Hwr; lia))
             as Hg.
           rewrite Hwr in Hg.
           pose proof (step_generate_intro _ _ _ _ _ Hg) as Hs.
           eexists. eexists. exists (b - n).
           split; [exact Hs |]. split; [| split; [| exact Hbud]].
           ++ simpl. destruct (Z.eq_dec n 0) as [-> | Hnz]; [left; reflexivity |].
              right. destruct (HJ ltac:(lia)) as (t & Ht).
              rewrite Hb in Ht. inversion Ht; subst m.
              exists t, (arch_rng_buf_idx s - n).
              split; [lia |]. split; [lia |].
              apply firstn_app_exact.
              rewrite length_firstn, length_skipn. unfold size in Hsz. zlia.
           ++ split; [apply (step_armed _ _ _ _ Ha0 Hs) |].
      split; [unfold FILL_BUDGET; zlia |].
              left. proj. split; [lia |]. split; [| lia].
              intros Hpos. apply HJ. lia.
        -- (* zero bytes asked of a full buffer *)
           assert (Hn0 : n = 0) by lia.
           assert (Hwr : wrap_u32 (arch_rng_buf_idx s - n) = arch_rng_buf_idx s).
           { subst n. rewrite Z.sub_0_r. apply wrap_u32_small. zlia. }
           pose proof (generate_miss buf n s Hl Hfit ltac:(rewrite Hwr; lia))
             as Hg.
           rewrite Hwr in Hg.
           pose proof (step_generate_intro _ _ _ _ _ Hg) as Hs.
           eexists. eexists. exists (b - n).
           split; [exact Hs |]. split; [exact I |]. split; [| exact Hbud].
           split; [apply (step_armed _ _ _ _ Ha0 Hs) |].
      split; [unfold FILL_BUDGET; zlia |].
           left. proj. split; [lia |]. split; [exact HJ | lia].
    + (* the cursor is wrapped: a miss *)
      assert (Hwr : wrap_u32 (arch_rng_buf_idx s - n) = arch_rng_buf_idx s - n).
      { apply wrap_u32_small. zlia. }
      pose proof (generate_miss buf n s Hl Hfit ltac:(rewrite Hwr; lia)) as Hg.
      rewrite Hwr in Hg. pose proof (step_generate_intro _ _ _ _ _ Hg) as Hs.
      eexists. eexists. exists (b - n).
      split; [exact Hs |]. split; [exact I |]. split; [| exact Hbud].
      split; [apply (step_armed _ _ _ _ Ha0 Hs) |].
      split; [unfold FILL_BUDGET; zlia |].
      right. proj. lia.
  - (* a caller who finds the lock held *)
    exists (Generated false buf), s, b.
    split; [| split; [exact I | split; [| exact Hbud]]].
    2:{ split; [exact Ha0 | split; [exact Hb0 | exact Hmode]]. }
    unfold step, while_locked, bind, ret, gets, modify.
    rewrite generate_contended by reflexivity. simpl.
    rewrite set_lock_same. reflexivity.
  - (* the worker *)
    destruct (refill_spec (set_work None s)) as
      (s' & Hr & Hidx & Hbuf & _).
    { exact Hl. }
    { intros _. exists m. auto. }
    proj. pose proof (step_fire_intro s d s' Hw Hr) as Hs.
    exists Fired, s', FILL_BUDGET.
    split; [exact Hs |]. split; [exact I |]. split; [| exact Hbud].
    split; [apply (step_armed _ _ _ _ Ha0 Hs) |].
      split; [unfold FILL_BUDGET; zlia |]. left.
    destruct (arch_rng_buf_idx s >? ARCH_RNG_BUF_SIZE) eqn:E.
    + rewrite Hidx, Hbuf. split; [zlia |]. split; [| lia].
      intros _. eexists. reflexivity.
    + rewrite Z.gtb_ltb in E. apply Z.ltb_ge in E.
      rewrite Hidx, Hbuf.
      destruct Hmode as [(Hi & HJ & Hb') | Hwrap]; [| unfold FILL_BUDGET in *; zlia].
      split; [lia |]. split; [exact HJ | lia].
Qed.

Lemma run_fill_inv (ops : list op) :
  forall b s,
    fill_inv b s -> within_budget b ops ->
    exists rs s', run ops s = Ok rs s' /\ Forall2 drng_served ops rs.
Proof.
  induction ops as [| o ops IH]; intros b s Hinv Hbud.
  - exists [], s. split; [reflexivity | constructor].
  - destruct (step_fill_inv o ops b s Hinv Hbud)
      as (r & s1 & b' & Hs & Hd & Hinv' & Hbud').
    destruct (IH b' s1 Hinv' Hbud') as (rs & s' & Hrun & Hall).
    exists (r :: rs), s'. split; [| constructor; assumption].
    apply (run_cons_intro _ _ _ _ _ _ _ Hs Hrun).
Qed.

(** X9.  After a successful init, let callers and the worker interleave in
    any way such that every caller's buffer has room for what it asks and,
    between two consecutive runs of the worker, the sizes asked sum to at
    most 2^32 - ARCH_RNG_BUF_SIZE - 1.  Then no operation ever faults (no
    read outside the buffer, none through NULL), and the bytes of every
    successful call for at least one byte are bytes, inside the buffer, of a
    buffer the DRNG generated: the allocator's initial contents are never
    handed out. *)
Theorem only_drng_output_is_served
  (hw : trng_state) (s0 : machine) (ops : list op) :
  s390_arch_random_init (boot hw) = Ok 0 s0 ->
  s390_arch_random_available s0 = true ->
  within_budget FILL_BUDGET ops ->
  exists rs s, run ops s0 = Ok rs s /\ Forall2 drng_served ops rs.
Proof.
  intros Hi Ha Hbud. destruct (init_armed hw s0 Hi Ha) as [Harm Hidx].
  apply (run_fill_inv ops FILL_BUDGET s0); [| exact Hbud].
  split; [exact Harm |]. split; [unfold FILL_BUDGET; zlia |].
  left. rewrite Hidx.
  split; [zlia |]. split; [intros H; lia | lia].
Qed.

(** ** Many misses in a row *)

Lemma misses_succ (k : N) :
  misses (N.succ k) = Generate (zeros 2048) 2048 :: misses k.
Proof. unfold misses. apply N.iter_succ. Qed.

Lemma misses_run (k : N) :
  forall s,
    arch_rng_lock s = false ->
    ARCH_RNG_BUF_SIZE + Z.of_N k * 2048 <= arch_rng_buf_idx s < 2 ^ 32 ->
    exists rs s',
      run (misses k) s = Ok rs s'
      /\ arch_rng_buf_idx s' = arch_rng_buf_idx s - Z.of_N k * 2048
      /\ arch_rng_lock s' = false
      /\ arch_rng_buf s' = arch_rng_buf s
      /\ s390_arch_random_counter s' = s390_arch_random_counter s.
Proof.
  induction k as [| k IH] using N.peano_ind; intros s Hl Hi.
  - exists [], s. split; [reflexivity |]. repeat split; auto. lia.
  - rewrite N2Z.inj_succ in *.
    assert (Hwr : wrap_u32 (arch_rng_buf_idx s - 2048)
                  = arch_rng_buf_idx s - 2048).
    { apply wrap_u32_small. zlia. }
    pose proof (generate_miss (zeros 2048) 2048 s Hl ltac:(zlia)
                  ltac:(rewrite Hwr; zlia)) as Hg.
    rewrite Hwr in Hg. pose proof (step_generate_intro _ _ _ _ _ Hg) as Hs.
    lazymatch type of Hg with
    | _ = Ok _ ?s1 =>
        destruct (IH s1 ltac:(reflexivity) ltac:(proj; zlia))
          as (rs & s' & Hrun & Hidx & Hl' & Hb' & Hc')
    end.
    proj. eexists. exists s'. split.
    { rewrite misses_succ. apply (run_cons_intro _ _ _ _ _ _ _ Hs Hrun). }
    repeat split; auto. lia.
Qed.

(** X10.  While the cursor is 0 (the boot state, where the buffer pointer
    is still NULL, and the state right after init, where the buffer holds
    what kmalloc returned), calls for at least one byte all return [false]:
    the buffer is never read, so NULL is never dereferenced and nothing of
    the fresh allocation is handed out; the callers' buffers and the counter
    stay as they were.  This holds for any sequence of such calls whose sizes
    sum to at most 2^32 - ARCH_RNG_BUF_SIZE. *)
Theorem calls_on_empty_cursor_all_miss
  (reqs : list (list u8 * Z)) (s : machine) :
  arch_rng_lock s = false ->
  arch_rng_buf_idx s = 0 ->
  Forall (fun q => 1 <= snd q <= ARCH_RNG_BUF_SIZE) reqs ->
  requested reqs <= 2 ^ 32 - ARCH_RNG_BUF_SIZE ->
  exists tr s',
    generate_seq reqs s = Ok tr s'
    /\ Forall (fun a => sv_ok a = false) tr
    /\ Forall2 (fun q a => sv_out a = fst q) reqs tr
    /\ arch_rng_buf s' = arch_rng_buf s
    /\ s390_arch_random_counter s' = s390_arch_random_counter s.
Proof.
  intros Hl Hi Hok Hsum.
  destruct reqs as [| [buf n] reqs].
  { exists [], s. simpl. unfold ret. repeat split; auto; constructor. }
  inversion Hok as [| q l Hq Hok']; subst. simpl in Hq.
  rewrite requested_cons in Hsum.
  assert (Hsizes : Forall (fun q => 0 <= snd q <= ARCH_RNG_BUF_SIZE) reqs).
  { eapply Forall_impl; [| exact Hok']. intros q H. simpl in H. lia. }
  pose proof (requested_sizes_nonneg reqs Hsizes) as Hrest.
  assert (Hw : wrap_u32 (arch_rng_buf_idx s - n) = 2 ^ 32 - n).
  { rewrite Hi. rewrite wrap_u32_borrow by zlia. lia. }
  pose proof (generate_miss buf n s Hl ltac:(lia) ltac:(rewrite Hw; zlia)) as Hm.
  rewrite Hw in Hm.
  lazymatch type of Hm with
  | _ = Ok _ ?s1 =>
      destruct (generate_seq_wrapped reqs s1 ltac:(reflexivity) Hsizes
                  ltac:(proj; zlia))
        as (tr & s' & Hrun & Hall & _ & Hc & Hb & _ & Hout)
  end.
  proj. eexists. exists s'.
  split; [apply (generate_seq_cons _ _ _ _ _ _ _ _ Hm Hrun) |].
  split; [constructor; [reflexivity | exact Hall] |].
  split; [| split; [exact Hb | exact Hc]].
  constructor; [reflexivity |].
  eapply Forall2_impl; [| exact Hout]. intros q a [_ H]. exact H.
Qed.

(** ** Where a call is safe *)

(** X3.  Let the buffer be allocated with ARCH_RNG_BUF_SIZE bytes, the
    caller's buffer have room for [nbytes], and the cursor be either inside
    the buffer or wrapped at least [nbytes] above it (every cursor outside
    the window of X7).  Then the call returns, whether the lock is held or
    free; it writes nothing but the first [nbytes] bytes of the caller's
    buffer, and nothing at all when it returns [false]; and when it returns
    [true] the block copied, arch_rng_buf[R', R' + nbytes) with [R'] the
    cursor it leaves, lies inside the buffer. *)
Theorem generate_writes_only_nbytes
  (buf : list u8) (nbytes : Z) (s : machine) (m : list u8) :
  arch_rng_buf s = Some m ->
  size m = ARCH_RNG_BUF_SIZE ->
  0 <= nbytes <= size buf ->
  0 <= arch_rng_buf_idx s <= ARCH_RNG_BUF_SIZE
  \/ ARCH_RNG_BUF_SIZE + nbytes <= arch_rng_buf_idx s < 2 ^ 32 ->
  exists ok out s',
    s390_arch_random_generate buf nbytes s = Ok (ok, out) s'
    /\ size out = size buf
    /\ skipn (Z.to_nat nbytes) out = skipn (Z.to_nat nbytes) buf
    /\ (ok = false -> out = buf)
    /\ (ok = true ->
        0 <= arch_rng_buf_idx s'
        /\ arch_rng_buf_idx s' + nbytes <= ARCH_RNG_BUF_SIZE
        /\ arch_rng_buf_idx s' + nbytes = arch_rng_buf_idx s
        /\ firstn (Z.to_nat nbytes) out
           = firstn (Z.to_nat nbytes)
               (skipn (Z.to_nat (arch_rng_buf_idx s')) m)).
Proof.
  intros Hb Hsz Hn Hzone.
  assert (Hfalse : forall s',
             s390_arch_random_generate buf nbytes s = Ok (false, buf) s' ->
             exists ok out s'',
               s390_arch_random_generate buf nbytes s = Ok (ok, out) s''
               /\ size out = size buf
               /\ skipn (Z.to_nat nbytes) out = skipn (Z.to_nat nbytes) buf
               /\ (ok = false -> out = buf)
               /\ (ok = true ->
                   0 <= arch_rng_buf_idx s''
                   /\ arch_rng_buf_idx s'' + nbytes <= ARCH_RNG_BUF_SIZE
                   /\ arch_rng_buf_idx s'' + nbytes = arch_rng_buf_idx s
                   /\ firstn (Z.to_nat nbytes) out
                      = firstn (Z.to_nat nbytes)
                          (skipn (Z.to_nat (arch_rng_buf_idx s'')) m))).
  { intros s' H. exists false, buf, s'. split; [exact H |].
    repeat split; auto; discriminate. }
  destruct (arch_rng_lock s) eqn:Hl.
  { apply (Hfalse s). apply generate_contended. exact Hl. }
  destruct (Z_lt_le_dec ARCH_RNG_BUF_SIZE nbytes) as [Hbig | Hfit].
  { apply (Hfalse s). apply generate_size_check. exact Hbig. }
  destruct Hzone as [Hin | Hwrap].
  - destruct (Z_lt_le_dec (arch_rng_buf_idx s) nbytes) as [Hshort | Henough].
    + (* more than is left *)
      assert (Hw : wrap_u32 (arch_rng_buf_idx s - nbytes)
                   = arch_rng_buf_idx s - nbytes + 2 ^ 32).
      { apply wrap_u32_borrow. zlia. }
      eapply Hfalse. apply generate_miss; auto. rewrite Hw. zlia.
    + destruct (Z_lt_le_dec (arch_rng_buf_idx s - nbytes) ARCH_RNG_BUF_SIZE)
        as [Hhit | Hfull].
      * (* served from the buffer *)
        assert (Hw : wrap_u32 (arch_rng_buf_idx s - nbytes)
                     = arch_rng_buf_idx s - nbytes).
        { apply wrap_u32_small. zlia. }
        pose proof (generate_hit buf nbytes s m Hl Hb ltac:(lia) ltac:(lia)
                      ltac:(rewrite Hw; lia) ltac:(rewrite Hw; lia)) as Hg.
        rewrite Hw in Hg.
        assert (Hlen : length (firstn (Z.to_nat nbytes)
                                 (skipn (Z.to_nat (arch_rng_buf_idx s - nbytes))
                                    m))
                       = Z.to_nat nbytes).
        { rewrite length_firstn, length_skipn. unfold size in Hsz. zlia. }
        eexists. eexists. eexists. split; [exact Hg |]. proj.
        split; [| split; [| split; [discriminate |]]].
        -- unfold size in *. rewrite length_app, Hlen, length_skipn. lia.
        -- apply skipn_app_exact. exact Hlen.
        -- intros _. split; [lia |]. split; [lia |]. split; [lia |].
           apply firstn_app_exact. exact Hlen.
      * (* zero bytes asked of a full buffer *)
        assert (Hw : wrap_u32 (arch_rng_buf_idx s - nbytes)
                     = arch_rng_buf_idx s).
        { replace nbytes with 0 by lia. rewrite Z.sub_0_r.
          apply wrap_u32_small. zlia. }
        eapply Hfalse. apply generate_miss; auto. rewrite Hw. lia.
  - (* the cursor is wrapped, far enough above the buffer *)
    assert (Hw : wrap_u32 (arch_rng_buf_idx s - nbytes)
                 = arch_rng_buf_idx s - nbytes).
    { apply wrap_u32_small. zlia. }
    eapply Hfalse. apply generate_miss; auto. rewrite Hw. lia.
Qed.

End Further.

(** * Concrete runs on [s390x] *)

#[local] Existing Instance s390x.

Ltac crunch :=
  vm_compute;
  repeat match goal with
         | |- _ /\ _ => split
         | |- _ -> False => let H := fresh in intro H; discriminate H
         | |- ~ _ => let H := fresh in intro H; discriminate H
         | |- _ = _ => reflexivity
         end.

Lemma generate_rejects_oversized_witness :
  s390_arch_random_generate (zeros 2049) 2049 five_left
  = Ok (false, zeros 2049) five_left.
Proof. apply generate_rejects_oversized. crunch. Defined.

Lemma generate_serves_tail_witness :
  exists s',
    s390_arch_random_generate (zeros 3) 3 full
    = Ok (true,
          firstn (Z.to_nat 3)
            (skipn (Z.to_nat (arch_rng_buf_idx full - 3)) (ramp 0 2048))
          ++ skipn (Z.to_nat 3) (zeros 3)) s'
    /\ arch_rng_buf_idx s' = arch_rng_buf_idx full - 3
    /\ s390_arch_random_counter s'
       = wrap_s64 (s390_arch_random_counter full + 3)
    /\ arch_rng_buf s' = Some (ramp 0 2048)
    /\ arch_rng_lock s' = false.
Proof. apply generate_serves_tail; crunch. Defined.

(** The claim C5 as written fails for a request of zero bytes on a full
    buffer: the lock is free, [0 <= R = ARCH_RNG_BUF_SIZE], and the call
    returns [false]. *)
Lemma generate_zero_bytes_on_full_buffer :
  arch_rng_lock full = false
  /\ arch_rng_buf_idx full = ARCH_RNG_BUF_SIZE
  /\ 0 <= arch_rng_buf_idx full
  /\ returned (s390_arch_random_generate [] 0 full) = Some (false, []).
Proof. crunch. Qed.

Lemma generate_miss_wraps_cursor_witness :
  exists s' s'',
    s390_arch_random_generate (zeros 6) 6 five_left = Ok (false, zeros 6) s'
    /\ arch_rng_buf s' = arch_rng_buf five_left
    /\ s390_arch_random_counter s' = s390_arch_random_counter five_left
    /\ arch_rng_buf_idx s' = arch_rng_buf_idx five_left - 6 + 2 ^ 32
    /\ s390_arch_random_generate (zeros 5) 5 s' = Ok (false, zeros 5) s''
    /\ arch_rng_buf s'' = arch_rng_buf five_left
    /\ s390_arch_random_counter s'' = s390_arch_random_counter five_left.
Proof. apply generate_miss_wraps_cursor; crunch. Defined.

(** The claim C1 as written fails with 5 bytes left: [extract(6)] returns
    [false] but leaves the cursor at 2^32 - 1, not 5, and the following
    [extract(5)] returns [false] with the cursor at 2^32 - 6. *)
Lemma generate_miss_changes_cursor :
  arch_rng_lock five_left = false
  /\ arch_rng_buf_idx five_left = 5
  /\ returned (s390_arch_random_generate (zeros 6) 6 five_left)
     = Some (false, zeros 6)
  /\ arch_rng_buf_idx (state_after [Generate (zeros 6) 6] five_left)
     = 4294967295
  /\ returned (run [Generate (zeros 6) 6; Generate (zeros 5) 5] five_left)
     = Some [Generated false (zeros 6); Generated false (zeros 5)]
  /\ arch_rng_buf_idx
       (state_after [Generate (zeros 6) 6; Generate (zeros 5) 5] five_left)
     = 4294967290.
Proof. crunch. Qed.

Lemma wrapped_cursor_triggers_refill_witness :
  exists s1 s2,
    s390_arch_random_generate (zeros 6) 6 five_left = Ok (false, zeros 6) s1
    /\ arch_rng_buf_idx s1 = arch_rng_buf_idx five_left - 6 + 2 ^ 32
    /\ ARCH_RNG_BUF_SIZE < arch_rng_buf_idx s1
    /\ arch_rng_refill_buffer s1 = Ok tt s2
    /\ arch_rng_buf s2 = Some (refilled (trng five_left))
    /\ size (refilled (trng five_left)) = ARCH_RNG_BUF_SIZE
    /\ arch_rng_buf_idx s2 = ARCH_RNG_BUF_SIZE.
Proof.
  apply (wrapped_cursor_triggers_refill (zeros 6) 6 five_left (ramp 0 2048));
    crunch.
Defined.

Lemma refill_iff_cursor_above_size_witness :
  exists s',
    arch_rng_refill_buffer drained = Ok tt s'
    /\ (ARCH_RNG_BUF_SIZE < arch_rng_buf_idx drained ->
        size (fst (cpacf_trng (trng drained) ARCH_PRNG_SEED_SIZE)) = 32
        /\ trng s' = snd (cpacf_trng (trng drained) ARCH_PRNG_SEED_SIZE)
        /\ arch_rng_buf s'
           = Some (fst (cpacf_prno_gen
                          (cpacf_prno_seed (repeat Byte.x00 240)
                             (fst (cpacf_trng (trng drained)
                                     ARCH_PRNG_SEED_SIZE)))
                          ARCH_RNG_BUF_SIZE))
        /\ size (refilled (trng drained)) = ARCH_RNG_BUF_SIZE
        /\ arch_rng_buf_idx s' = ARCH_RNG_BUF_SIZE
        /\ klog s'
           = klog drained ++ [EvSpinLock; EvTrng 32;
                        EvPrno CPACF_PRNO_SHA512_DRNG_SEED;
                        EvPrno CPACF_PRNO_SHA512_DRNG_GEN; EvSpinUnlock]
             ++ match arch_rng_work drained with
                | Some _ => []
                | None => [EvQueueDelayedWork
                             (wrap_u64 (next_delay ARCH_RNG_BUF_SIZE))]
                end)
    /\ (arch_rng_buf_idx drained <= ARCH_RNG_BUF_SIZE ->
        trng s' = trng drained
        /\ arch_rng_buf s' = arch_rng_buf drained
        /\ arch_rng_buf_idx s' = arch_rng_buf_idx drained
        /\ klog s'
           = klog drained ++ [EvSpinLock; EvSpinUnlock]
             ++ match arch_rng_work drained with
                | Some _ => []
                | None => [EvQueueDelayedWork
                             (wrap_u64 (next_delay (arch_rng_buf_idx drained)))]
                end).
Proof.
  apply refill_iff_cursor_above_size.
  - crunch.
  - exists (ramp 0 2048). crunch.
Defined.

(** The claim C2 as written fails in both directions.  With the buffer
    drained to [R = 0] the worker runs without refilling: the cursor stays 0,
    the buffer and the entropy source are untouched.  With the cursor at
    2^32 - 1, which is above 0, it does refill. *)
Lemma worker_runs_on_drained_and_on_wrapped :
  arch_rng_buf_idx drained = 0
  /\ returned (run [Fire] drained) = Some [Fired]
  /\ arch_rng_buf_idx (state_after [Fire] drained) = 0
  /\ arch_rng_buf (state_after [Fire] drained) = arch_rng_buf drained
  /\ trng (state_after [Fire] drained) = trng drained
  /\ arch_rng_buf_idx (state_after [Generate (zeros 6) 6] five_left)
     = 4294967295
  /\ arch_rng_buf_idx (state_after [Generate (zeros 6) 6; Fire] five_left)
     = 2048
  /\ trng (state_after [Generate (zeros 6) 6; Fire] five_left)
     <> trng five_left.
Proof. crunch. Qed.

(** ** The concrete states are states of the running system *)

Lemma init_power_on : s390_arch_random_init power_on = Ok 0 fresh.
Proof. vm_compute. reflexivity. Qed.

Lemma reachable_state_after (ops : list op) (s : machine) :
  reachable s -> returned (run ops s) <> None ->
  reachable (state_after ops s).
Proof.
  intros Hs H. unfold state_after.
  destruct (run ops s) as [rs s' |] eqn:E.
  - apply (reachable_run ops s rs s' Hs E).
  - contradiction H. reflexivity.
Qed.

Lemma reachable_fresh : reachable fresh.
Proof.
  apply (reach_init (P := s390x) 0 fresh).
  - exact init_power_on.
  - vm_compute. reflexivity.
Qed.

Lemma reachable_full : reachable full.
Proof.
  apply reachable_state_after; [exact reachable_fresh |].
  vm_compute. discriminate.
Qed.

Lemma reachable_five_left : reachable five_left.
Proof.
  apply reachable_state_after; [exact reachable_full |].
  vm_compute. discriminate.
Qed.

(** ** C3 *)

Lemma cursor_in_range_after_worker_or_hit_witness :
  0 <= arch_rng_buf_idx five_left < 2 ^ 32
  /\ (forall r s', step Fire five_left = Ok r s' ->
                   0 <= arch_rng_buf_idx s' <= ARCH_RNG_BUF_SIZE)
  /\ (forall buf nbytes out s',
        step (Generate buf nbytes) five_left = Ok (Generated true out) s' ->
        0 <= arch_rng_buf_idx s' < ARCH_RNG_BUF_SIZE).
Proof.
  apply cursor_in_range_after_worker_or_hit. exact reachable_five_left.
Defined.

(** The claim C3 as written fails one call after the init: the first caller
    asks for one byte of the still empty buffer and leaves the cursor at
    2^32 - 1, above ARCH_RNG_BUF_SIZE. *)
Lemma cursor_leaves_buffer_range :
  reachable (state_after [Generate (zeros 1) 1] fresh)
  /\ arch_rng_buf_idx (state_after [Generate (zeros 1) 1] fresh) = 4294967295
  /\ ARCH_RNG_BUF_SIZE
     < arch_rng_buf_idx (state_after [Generate (zeros 1) 1] fresh).
Proof.
  split.
  - apply reachable_state_after; [exact reachable_fresh |].
    vm_compute. discriminate.
  - crunch.
Qed.

(** ** C4 *)

Lemma fill_cycle_serves_disjoint_ranges_witness :
  exists tr s',
    generate_seq [(zeros 3, 3); ([], 0); (zeros 5, 5)] full = Ok tr s'
    /\ Forall (fun a => sv_ok a = true) tr
    /\ ranges_disjoint tr
    /\ cursor_shrinks tr
    /\ Forall (fun a => 0 <= sv_lo a
                        /\ sv_lo a + sv_len a <= ARCH_RNG_BUF_SIZE) tr
    /\ Forall2 (fun q a =>
                  sv_len a = snd q
                  /\ sv_out a
                     = firstn (Z.to_nat (sv_len a))
                         (skipn (Z.to_nat (sv_lo a)) (ramp 0 2048))
                       ++ skipn (Z.to_nat (sv_len a)) (fst q))
         [(zeros 3, 3); ([], 0); (zeros 5, 5)] tr
    /\ arch_rng_buf_idx s'
       = ARCH_RNG_BUF_SIZE - requested [(zeros 3, 3); ([], 0); (zeros 5, 5)].
Proof.
  apply fill_cycle_serves_disjoint_ranges;
    try (repeat constructor); crunch.
Defined.

(** The claim C4 as written fails when the sequence opens with a request
    for zero bytes: right after the refill the sizes 0 and 3 sum to 3, and
    the first call returns [false]. *)
Lemma zero_request_right_after_refill :
  arch_rng_lock full = false
  /\ arch_rng_buf_idx full = ARCH_RNG_BUF_SIZE
  /\ requested [([], 0); (zeros 3, 3)] <= ARCH_RNG_BUF_SIZE
  /\ option_map (map sv_ok)
       (returned (generate_seq [([], 0); (zeros 3, 3)] full))
     = Some [false; true].
Proof. crunch. Qed.

(** ** C6 *)

Lemma worker_rearms_with_scaled_delay_witness :
  exists s',
    run_delayed_work half = Ok tt s'
    /\ arch_rng_buf_idx s' = 1024
    /\ arch_rng_work s' = Some 750.
Proof.
  destruct (worker_rearms_with_scaled_delay half 1000)
    as (s' & Hrun & Hidx & _ & _ & _ & H750).
  - crunch.
  - crunch.
  - exists (ramp 0 2048). crunch.
  - crunch.
  - crunch.
  - crunch.
  - exists s'. split; [exact Hrun |]. split; [exact Hidx |].
    apply H750; [reflexivity | exact Hidx].
Defined.

(** ** C7 *)

Lemma init_outcomes_witness :
  s390_arch_random_init (P := s390x_no_trng) (boot (P := s390x_no_trng) 0)
  = Ok 0 (boot (P := s390x_no_trng) 0)
  /\ (exists s',
        s390_arch_random_init (P := s390x_no_mem) (boot (P := s390x_no_mem) 0)
        = Ok (- ENOMEM) s'
        /\ s390_arch_random_available s' = false
        /\ arch_rng_buf s' = None
        /\ arch_rng_work s' = None
        /\ klog s' = [EvKmalloc ARCH_RNG_BUF_SIZE])
  /\ (exists s',
        s390_arch_random_init power_on = Ok 0 s'
        /\ arch_rng_buf s' = Some (zeros 2048)
        /\ size (zeros 2048) = ARCH_RNG_BUF_SIZE
        /\ arch_rng_buf_idx s' = 0
        /\ arch_rng_work s' = Some ARCH_REFILL_TICKS
        /\ s390_arch_random_available s' = true
        /\ klog s' = [EvKmalloc ARCH_RNG_BUF_SIZE;
                      EvQueueDelayedWork ARCH_REFILL_TICKS;
                      EvStaticBranchEnable]).
Proof.
  split; [| split].
  - destruct (init_outcomes (P := s390x_no_trng) 0) as (_ & H & _).
    apply H. left. reflexivity.
  - destruct (init_outcomes (P := s390x_no_mem) 0) as (_ & _ & H & _).
    apply H; reflexivity.
  - destruct (init_outcomes (P := s390x) 0) as (_ & _ & _ & H & _).
    apply (H eq_refl eq_refl (zeros 2048)); crunch.
Defined.

(** ** C8 *)

Lemma counter_is_sum_of_served_witness :
  s390_arch_random_counter
    (state_after [Generate (zeros 1) 1; Fire; Generate (zeros 3) 3] fresh)
  = wrap_s64 3
  /\ s390_arch_random_counter (state_after [Generate (zeros 1) 1; Fire] fresh)
     <= s390_arch_random_counter
          (state_after [Generate (zeros 1) 1; Fire; Generate (zeros 3) 3] fresh).
Proof.
  destruct (counter_is_sum_of_served (P := s390x) 0 fresh
              [Generate (zeros 1) 1; Fire; Generate (zeros 3) 3]
              [Generated false (zeros 1); Fired;
               Generated true (firstn 3 (skipn 2045 (ramp 0 2048)))]
              (state_after [Generate (zeros 1) 1; Fire; Generate (zeros 3) 3]
                 fresh))
    as (Hsum & Hmono).
  - exact init_power_on.
  - vm_compute. reflexivity.
  - split; [exact Hsum |].
    destruct Hmono as (_ & Hle).
    + repeat constructor; crunch.
    + crunch.
    + apply (Hle [Generate (zeros 1) 1; Fire] [Generate (zeros 3) 3]
                 [Generated false (zeros 1); Fired]).
      * reflexivity.
      * vm_compute. reflexivity.
Defined.

(** The claim C8 as written fails once 2^63 bytes have been served: after
    [long_run] the counter stands at 2^63 - 2048, and the next caller, who
    takes a whole buffer, leaves it at -2^63. *)
Lemma counter_wraps_after_long_run :
  exists rs s1 out s2,
    s390_arch_random_init power_on = Ok 0 fresh
    /\ run long_run fresh = Ok rs s1
    /\ step (Generate (zeros 2048) 2048) s1 = Ok (Generated true out) s2
    /\ s390_arch_random_counter s1 = 9223372036854773760
    /\ s390_arch_random_counter s2 = - 9223372036854775808
    /\ s390_arch_random_counter s2 < s390_arch_random_counter s1.
Proof.
  set (sa := state_after [Generate (zeros 1) 1] fresh).
  assert (Hfirst : step (Generate (zeros 1) 1) fresh
                   = Ok (Generated false (zeros 1)) sa)
    by (vm_compute; reflexivity).
  assert (Hsa : cycle_start sa).
  { unfold cycle_start. split; [crunch |]. split; [| split; [| crunch]].
    - exists (zeros 2048). crunch.
    - exists 500. crunch. }
  assert (Hca : s390_arch_random_counter sa = 0) by crunch.
  destruct (cycles_run (2 ^ 52 - 1) sa Hsa) as (rsb & sb & Hrunb & Hsb & Hcb).
  { rewrite Hca. lia. }
  rewrite Hca in Hcb.
  change (wrap_s64 (0 + Z.of_N (2 ^ 52 - 1) * ARCH_RNG_BUF_SIZE))
    with 9223372036854773760 in Hcb.
  destruct (refill_then_take_all sb Hsb) as (rs & s2 & Hrun & Hrs & _ & _ & _ & _ & Hc2).
  apply run_cons_inv in Hrun.
  destruct Hrun as (r1 & s1 & rs1 & Hfire & Hrest & Hrs1).
  apply run_cons_inv in Hrest.
  destruct Hrest as (r2 & s2' & rs2 & Hgen & Hnil & Hrs2).
  inversion Hnil; subst rs2 s2'. clear Hnil.
  rewrite Hrs, Hrs2 in Hrs1. inversion Hrs1; subst r1 r2. clear Hrs1.
  assert (Hc1 : s390_arch_random_counter s1 = 9223372036854773760).
  { destruct (step_counter _ _ _ _ Hfire) as [[_ H] | H]; rewrite H, Hcb.
    - reflexivity.
    - reflexivity. }
  rewrite Hcb in Hc2.
  change (wrap_s64 (9223372036854773760 + ARCH_RNG_BUF_SIZE))
    with (- 9223372036854775808) in Hc2.
  exists (Generated false (zeros 1) :: rsb ++ [Fired]), s1,
         (refilled (trng sb)), s2.
  split; [exact init_power_on |]. split.
  { unfold long_run. eapply run_cons_intro; [exact Hfirst |].
    eapply run_app_intro; [exact Hrunb |].
    eapply run_cons_intro; [exact Hfire |]. reflexivity. }
  split; [exact Hgen |]. split; [exact Hc1 |]. split; [exact Hc2 |].
  rewrite Hc1, Hc2. reflexivity.
Qed.

(** * Concrete runs for the further properties *)

Lemma generate_frame_witness :
  arch_rng_lock (state_after [Generate (zeros 6) 6] five_left)
  = arch_rng_lock five_left
  /\ arch_rng_buf (state_after [Generate (zeros 6) 6] five_left)
     = arch_rng_buf five_left
  /\ arch_rng_work (state_after [Generate (zeros 6) 6] five_left)
     = arch_rng_work five_left
  /\ trng (state_after [Generate (zeros 6) 6] five_left) = trng five_left
  /\ s390_arch_random_available (state_after [Generate (zeros 6) 6] five_left)
     = s390_arch_random_available five_left
  /\ (klog (state_after [Generate (zeros 6) 6] five_left) = klog five_left
      \/ (arch_rng_lock five_left = false
          /\ klog (state_after [Generate (zeros 6) 6] five_left)
             = klog five_left ++ [EvSpinLock; EvSpinUnlock]))
  /\ (fst (false, zeros 6) = false ->
      s390_arch_random_counter (state_after [Generate (zeros 6) 6] five_left)
      = s390_arch_random_counter five_left).
Proof.
  apply (generate_frame (zeros 6) 6 five_left (false, zeros 6)).
  vm_compute. reflexivity.
Defined.

Lemma generate_writes_only_nbytes_witness :
  exists ok out s',
    s390_arch_random_generate (zeros 5) 3 full = Ok (ok, out) s'
    /\ size out = size (zeros 5)
    /\ skipn (Z.to_nat 3) out = skipn (Z.to_nat 3) (zeros 5)
    /\ (ok = false -> out = zeros 5)
    /\ (ok = true ->
        0 <= arch_rng_buf_idx s'
        /\ arch_rng_buf_idx s' + 3 <= ARCH_RNG_BUF_SIZE
        /\ arch_rng_buf_idx s' + 3 = arch_rng_buf_idx full
        /\ firstn (Z.to_nat 3) out
           = firstn (Z.to_nat 3)
               (skipn (Z.to_nat (arch_rng_buf_idx s')) (ramp 0 2048))).
Proof.
  apply generate_writes_only_nbytes; try crunch.
  left. crunch.
Defined.

Lemma calls_between_worker_runs_witness :
  exists tr s',
    generate_seq [(zeros 3, 3); (zeros 6, 6); (zeros 2, 2)] five_left = Ok tr s'
    /\ arch_rng_buf_idx s'
       = wrap_u32 (arch_rng_buf_idx five_left
                   - requested [(zeros 3, 3); (zeros 6, 6); (zeros 2, 2)])
    /\ sticky_miss tr
    /\ Forall (fun a => sv_ok a = true ->
                        0 <= sv_lo a
                        /\ sv_lo a + sv_len a <= ARCH_RNG_BUF_SIZE) tr
    /\ arch_rng_buf s' = Some (ramp 0 2048).
Proof.
  apply calls_between_worker_runs; try (repeat constructor); crunch.
Defined.

Lemma worker_always_runs_and_rearms_witness :
  armed five_left
  /\ s390_arch_random_available five_left = true
  /\ exists s',
       step Fire five_left = Ok Fired s'
       /\ armed s'
       /\ 0 <= arch_rng_buf_idx s' <= ARCH_RNG_BUF_SIZE
       /\ exists delay, last (klog s') EvSpinLock = EvQueueDelayedWork delay
                        /\ arch_rng_work s' = Some delay.
Proof.
  apply worker_always_runs_and_rearms. exact reachable_five_left.
Defined.

Lemma worker_delay_bounds_witness :
  exists s1' s2' d1' d2',
    run_delayed_work drained = Ok tt s1' /\ arch_rng_work s1' = Some d1'
    /\ run_delayed_work half = Ok tt s2' /\ arch_rng_work s2' = Some d2'
    /\ ARCH_REFILL_TICKS <= d1' <= 2 * ARCH_REFILL_TICKS
    /\ (arch_rng_buf_idx drained = 0 -> d1' = ARCH_REFILL_TICKS)
    /\ (ARCH_RNG_BUF_SIZE <= arch_rng_buf_idx drained ->
        d1' = 2 * ARCH_REFILL_TICKS)
    /\ (arch_rng_buf_idx drained <= arch_rng_buf_idx half <= ARCH_RNG_BUF_SIZE ->
        d1' <= d2').
Proof.
  apply (worker_delay_bounds drained half 1000 1000); try crunch.
  - exists (ramp 0 2048). crunch.
  - exists (ramp 0 2048). crunch.
Defined.

(** The state the first caller's miss leaves behind. *)
Lemma first_miss_state :
  step (Generate (zeros 1) 1) fresh
  = Ok (Generated false (zeros 1)) (state_after [Generate (zeros 1) 1] fresh)
  /\ arch_rng_lock (state_after [Generate (zeros 1) 1] fresh) = false
  /\ arch_rng_buf_idx (state_after [Generate (zeros 1) 1] fresh) = 2 ^ 32 - 1
  /\ arch_rng_buf (state_after [Generate (zeros 1) 1] fresh)
     = Some (zeros 2048).
Proof. crunch. Qed.

(** [starved_run] from the init state: the buffer still holds what kmalloc
    returned, and the cursor stands at 4095. *)
Lemma starved_run_state :
  exists rs s,
    run starved_run fresh = Ok rs s
    /\ reachable s
    /\ arch_rng_lock s = false
    /\ arch_rng_buf s = Some (zeros 2048)
    /\ arch_rng_buf_idx s = 4095.
Proof.
  destruct first_miss_state as (Hfirst & Hl & Hi & Hb).
  destruct (misses_run (2 ^ 21 - 2)
              (state_after [Generate (zeros 1) 1] fresh) Hl)
    as (rs & s & Hrun & Hidx & Hl' & Hb' & _).
  { rewrite Hi. vm_compute. split; [discriminate | reflexivity]. }
  assert (Hall : run starved_run fresh
                 = Ok (Generated false (zeros 1) :: rs) s).
  { unfold starved_run. apply (run_cons_intro _ _ _ _ _ _ _ Hfirst Hrun). }
  exists (Generated false (zeros 1) :: rs), s.
  split; [exact Hall |].
  split; [apply (reachable_run _ _ _ _ reachable_fresh Hall) |].
  split; [exact Hl' |]. split; [rewrite Hb'; exact Hb |].
  rewrite Hidx, Hi. reflexivity.
Qed.

Lemma generate_reads_past_buffer_witness :
  exists rs s,
    run starved_run fresh = Ok rs s
    /\ reachable s
    /\ arch_rng_buf_idx s = 4095
    /\ wrap_u32 (arch_rng_buf_idx s - 2048) < ARCH_RNG_BUF_SIZE
    /\ size (zeros 2048) < wrap_u32 (arch_rng_buf_idx s - 2048) + 2048
    /\ s390_arch_random_generate (zeros 2048) 2048 s = Fault BadAccess.
Proof.
  destruct starved_run_state as (rs & s & Hrun & Hreach & Hl & Hb & Hi).
  exists rs, s. split; [exact Hrun |]. split; [exact Hreach |].
  split; [exact Hi |].
  apply (generate_reads_past_buffer (zeros 2048) 2048 s (zeros 2048) Hl Hb).
  - reflexivity.
  - crunch.
  - rewrite Hi. crunch.
Defined.

Lemma miss_landing_on_size_reopens_buffer_witness :
  exists rs s1 s1' s2,
    run landing_run fresh = Ok rs s1
    /\ reachable s1
    /\ arch_rng_buf_idx s1 = ARCH_RNG_BUF_SIZE
    /\ arch_rng_refill_buffer s1 = Ok tt s1'
    /\ arch_rng_buf s1' = Some (zeros 2048)
    /\ arch_rng_buf_idx s1' = ARCH_RNG_BUF_SIZE
    /\ s390_arch_random_generate (ramp 1 8) 8 s1
       = Ok (true,
             firstn (Z.to_nat 8)
               (skipn (Z.to_nat (ARCH_RNG_BUF_SIZE - 8)) (zeros 2048))
             ++ skipn (Z.to_nat 8) (ramp 1 8)) s2.
Proof.
  destruct starved_run_state as (rs & s & Hrun & Hreach & Hl & Hb & Hi).
  destruct (miss_landing_on_size_reopens_buffer
              (zeros 2047) (ramp 1 8) 2047 8 s (zeros 2048) Hl Hb)
    as (s1 & s1' & s2 & Hm & Hi1 & Hr & Hb1 & Hi1' & _ & Hg & _).
  - reflexivity.
  - crunch.
  - rewrite Hi. reflexivity.
  - crunch.
  - crunch.
  - pose proof (step_generate_intro _ _ _ _ _ Hm) as Hs.
    assert (Hall : run landing_run fresh
                   = Ok (rs ++ [Generated false (zeros 2047)]) s1).
    { unfold landing_run. eapply run_app_intro; [exact Hrun |].
      eapply run_cons_intro; [exact Hs | reflexivity]. }
    exists (rs ++ [Generated false (zeros 2047)]), s1, s1', s2.
    split; [exact Hall |].
    split; [apply (reachable_run _ _ _ _ reachable_fresh Hall) |].
    split; [exact Hi1 |]. split; [exact Hr |]. split; [exact Hb1 |].
    split; [exact Hi1' | exact Hg].
Defined.

Lemma only_drng_output_is_served_witness :
  exists rs s,
    run [Generate (zeros 8) 8; Fire; Generate (zeros 8) 8;
         Generate (zeros 2048) 2048; Fire;
         GenerateBusy (zeros 4) 4; Generate (zeros 4) 4] fresh = Ok rs s
    /\ Forall2 drng_served
         [Generate (zeros 8) 8; Fire; Generate (zeros 8) 8;
          Generate (zeros 2048) 2048; Fire;
          GenerateBusy (zeros 4) 4; Generate (zeros 4) 4] rs.
Proof.
  apply (only_drng_output_is_served (P := s390x) 0 fresh).
  - exact init_power_on.
  - crunch.
  - crunch; exact I.
Defined.

Lemma calls_on_empty_cursor_all_miss_witness :
  exists tr s',
    generate_seq [(zeros 8, 8); (zeros 4, 4)] power_on = Ok tr s'
    /\ Forall (fun a => sv_ok a = false) tr
    /\ Forall2 (fun q a => sv_out a = fst q) [(zeros 8, 8); (zeros 4, 4)] tr
    /\ arch_rng_buf s' = arch_rng_buf power_on
    /\ s390_arch_random_counter s' = s390_arch_random_counter power_on.
Proof.
  apply calls_on_empty_cursor_all_miss; try (repeat constructor); crunch.
Defined.
